(** * Notification service: dispatch orchestration and scheduling

    A shallow embedding of the provider abstraction ([BaseProvider] and its
    three variants), of [NotificationService] (single and bulk dispatch,
    provider compatibility check) and of [SchedulerService] (job registry,
    trigger callbacks), followed by the properties checked on them.

    JavaScript [async] methods are embedded in a state-and-exception monad:
    the state holds the external world the transports talk to and a trace of
    the observable effects ([send] calls and [setTimeout] waits); a rejected
    promise or a [throw] is the [Throw] outcome. *)

From Stdlib Require Import String Ascii List Arith NArith Bool Lia DecimalString.
From Stdlib Require Import Sorting.Sorted Sorting.Permutation.
Import ListNotations.
Open Scope string_scope.
Open Scope list_scope.

Set Implicit Arguments.

(** String concatenation, kept apart from list append. *)
Infix "+++" := String.append (right associativity, at level 60).

(** ** Strings as the source uses them

    A string of the model is the sequence of the characters of the JS
    string.  On ASCII text one character is one unit of the JS string, and
    [length] and [substring] count alike on both sides; the properties that
    count characters of a free text are stated for ASCII text. *)

Module Js.

(** [String.prototype.toLowerCase], on the ASCII letters. *)
Definition lower_ascii (c : ascii) : ascii :=
  let n := nat_of_ascii c in
  if Nat.leb 65 n && Nat.leb n 90 then ascii_of_nat (n + 32) else c.

Fixpoint toLowerCase (s : string) : string :=
  match s with
  | EmptyString => EmptyString
  | String c s' => String (lower_ascii c) (toLowerCase s')
  end.

(** A string is truthy when it is not empty. *)
Definition truthy (s : string) : bool :=
  match s with EmptyString => false | String _ _ => true end.

(** [s.substring(0, n)]. *)
Definition prefix (n : nat) (s : string) : string := substring 0 n s.

(** Template rendering of a number: [`${n}`]. *)
Definition of_nat (n : nat) : string := NilEmpty.string_of_uint (Nat.to_uint n).

Definition of_N (n : N) : string := NilEmpty.string_of_uint (N.to_uint n).

(** [Array.prototype.join]. *)
Fixpoint join (sep : string) (l : list string) : string :=
  match l with
  | [] => EmptyString
  | [x] => x
  | x :: rest => x +++ sep +++ join sep rest
  end.

(** [s.split(c)] for a one-character separator. *)
Fixpoint split_aux (c : ascii) (acc : string) (s : string) : list string :=
  match s with
  | EmptyString => [acc]
  | String d s' =>
      if Ascii.eqb d c then acc :: split_aux c EmptyString s'
      else split_aux c (acc +++ String d EmptyString) s'
  end.

Definition split (c : ascii) (s : string) : list string := split_aux c EmptyString s.

(** [Number(s)] on a string of decimal digits (the only strings the
    scheduler converts, the time pattern having matched before). *)
Definition digit (c : ascii) : nat := nat_of_ascii c - 48.

Fixpoint Number_aux (acc : nat) (s : string) : nat :=
  match s with
  | EmptyString => acc
  | String c s' => Number_aux (10 * acc + digit c) s'
  end.

Definition Number (s : string) : nat := Number_aux 0 s.

End Js.

(** ** Regular expressions

    The time pattern of the scheduler is a regular expression anchored at
    both ends; it is matched with Brzozowski derivatives. *)

Module Regex.

Inductive re : Type :=
| Void
| Eps
| Chr (c : ascii)
| Range (lo hi : ascii)
| Seq (r1 r2 : re)
| Alt (r1 r2 : re)
| Opt (r : re).

Fixpoint nullable (r : re) : bool :=
  match r with
  | Void => false
  | Eps => true
  | Chr _ => false
  | Range _ _ => false
  | Seq r1 r2 => nullable r1 && nullable r2
  | Alt r1 r2 => nullable r1 || nullable r2
  | Opt _ => true
  end.

Definition in_range (lo hi c : ascii) : bool :=
  Nat.leb (nat_of_ascii lo) (nat_of_ascii c) &&
  Nat.leb (nat_of_ascii c) (nat_of_ascii hi).

Fixpoint deriv (c : ascii) (r : re) : re :=
  match r with
  | Void => Void
  | Eps => Void
  | Chr d => if Ascii.eqb c d then Eps else Void
  | Range lo hi => if in_range lo hi c then Eps else Void
  | Seq r1 r2 =>
      if nullable r1 then Alt (Seq (deriv c r1) r2) (deriv c r2)
      else Seq (deriv c r1) r2
  | Alt r1 r2 => Alt (deriv c r1) (deriv c r2)
  | Opt r1 => deriv c r1
  end.

(** [/^r$/.test(s)] *)
Fixpoint test (r : re) (s : string) : bool :=
  match s with
  | EmptyString => nullable r
  | String c s' => test (deriv c r) s'
  end.

End Regex.

(** ** Data model *)

(** A notification as the orchestrator reads it.  [title] and [body] are
    strings, as the data model and the request schema require; a field that
    is tested for truthiness is falsy when it is the empty string.  The
    targeting fields are optional. *)
Record Notification : Type := mkNotification {
  title : string;
  body : string;
  token : option string;
  tokens : option (list string);
  topic : option string;
  channel : option string;
  event : option string
}.

(** Truthiness of an optional string field and of an optional array field
    (an array, even empty, is truthy). *)
Definition truthy_str (o : option string) : bool :=
  match o with Some s => Js.truthy s | None => false end.

Definition truthy_arr (A : Type) (o : option (list A)) : bool :=
  match o with Some _ => true | None => false end.

Record Options : Type := mkOptions {
  opt_provider : option string;
  opt_enableFailover : option bool;
  opt_timeout : option nat
}.

Definition no_options : Options := mkOptions None None None.

(** What a provider's [send] resolves to. *)
Record Receipt : Type := mkReceipt {
  rc_provider : string;
  rc_result : string;
  rc_sentAt : string
}.

(** One entry of the [errors] array of [sendNotification]. *)
Record ErrorEntry : Type := mkErrorEntry {
  err_provider : string;
  err_error : string;
  err_skipped : bool
}.

(** The errors the core throws.  Each constructor is one [throw new Error]
    site; [message] renders the text the source builds there. *)
Inductive Error : Type :=
| ProviderError (msg : string)
| NoProvidersAvailable
| ProviderNotFound (requested : string)
| FailedToSendVia (requested : string) (msg : string)
| AllProvidersFailed (errors : list ErrorEntry)
| SchedulerNotRunning
| InvalidTimeFormat
| ScheduleNotObject
| ScheduleTimeRequired
| InvalidTimezone
| InvalidFrequency
| CronError (msg : string).

Definition dquote : string := String (ascii_of_nat 34) EmptyString.

Definition message (e : Error) : string :=
  match e with
  | ProviderError msg => msg
  | NoProvidersAvailable => "No notification providers available"
  | ProviderNotFound r => "Provider " +++ r +++ " not found or not enabled"
  | FailedToSendVia r msg => "Failed to send via " +++ r +++ ": " +++ msg
  | AllProvidersFailed errors =>
      "All providers failed: " +++
      Js.join "; " (map (fun e => err_provider e +++ ": " +++ err_error e) errors)
  | SchedulerNotRunning => "Scheduler service is not running"
  | InvalidTimeFormat => "Invalid time format. Use HH:MM format"
  | ScheduleNotObject => "Schedule must be an object"
  | ScheduleTimeRequired => "Schedule time is required"
  | InvalidTimezone => "Invalid timezone"
  | InvalidFrequency =>
      "Frequency must be " +++ dquote +++ "once" +++ dquote +++ " or " +++
      dquote +++ "daily" +++ dquote
  | CronError msg => msg
  end.

(** ** Effects

    The observable effects of a dispatch are the calls of a provider's [send]
    and the waits between retries.  They are recorded, oldest first, in a
    trace; the outside world being deterministic, what a transport answers is
    a function of the trace so far. *)

Inductive Event : Type :=
| EvSend (provider : string) (n : Notification)
| EvDelay (ms : nat).

Definition Trace : Type := list Event.

Inductive Outcome (A : Type) : Type :=
| Return (a : A)
| Throw (e : Error).

Arguments Return {A} a.
Arguments Throw {A} e.

Definition M (A : Type) : Type := Trace -> Outcome A * Trace.

Definition ret (A : Type) (a : A) : M A := fun tr => (Return a, tr).

Definition throw (A : Type) (e : Error) : M A := fun tr => (Throw e, tr).

Arguments throw {A} e.

Definition bind (A B : Type) (c : M A) (k : A -> M B) : M B :=
  fun tr =>
    match c tr with
    | (Return a, tr') => k a tr'
    | (Throw e, tr') => (Throw e, tr')
    end.

(** [try { c } catch (error) { ... }] with the outcome of [c] handed to the
    code that follows. *)
Definition attempt (A : Type) (c : M A) : M (Outcome A) :=
  fun tr => let (r, tr') := c tr in (Return r, tr').

Definition emit (e : Event) : M unit := fun tr => (Return tt, tr ++ [e]).

Notation "x <- c ;; k" := (bind c (fun x => k))
  (at level 61, c at next level, right associativity).
Notation "c ;;; k" := (bind c (fun _ => k))
  (at level 61, right associativity).

(** ** Providers *)

(** A provider object: its fields and its methods.  A method that reads
    [this.enabled] takes the current value of the field; [send_of] also takes
    the trace, from which the transport's answer is determined. *)
Record Provider : Type := mkProvider {
  name : string;
  enabled : bool;
  retryAttempts : nat;
  retryDelay : nat;
  isEnabled_of : bool -> bool;
  canHandle : Notification -> bool;
  validateNotification : Notification -> Outcome bool;
  send_of : bool -> Trace -> Notification -> Outcome Receipt
}.

Definition getName (p : Provider) : string := name p.

Definition isEnabled (p : Provider) : bool := isEnabled_of p (enabled p).

(** One call of [send]: one delivery attempt, recorded in the trace. *)
Definition send (p : Provider) (n : Notification) : M Receipt :=
  fun tr => (send_of p (enabled p) tr n, tr ++ [EvSend (name p) n]).

(** [delay(ms)]: the promise resolves after the timer. *)
Definition delay (ms : nat) : M unit := emit (EvDelay ms).

(** [provider.enabled = enabled] *)
Definition set_enabled (p : Provider) (e : bool) : Provider :=
  mkProvider (name p) e (retryAttempts p) (retryDelay p) (isEnabled_of p)
    (canHandle p) (validateNotification p) (send_of p).

(** The loop of [sendWithRetry], at iteration [i] with [k] iterations left
    ([i + k = attempts]).  Leaving the loop without a [return] yields
    [undefined], here [None]. *)
Fixpoint sendWithRetry_loop (p : Provider) (n : Notification)
    (attempts i k : nat) : M (option Receipt) :=
  match k with
  | 0 => ret None
  | S k' =>
      r <- attempt (send p n) ;;
      match r with
      | Return receipt => ret (Some receipt)
      | Throw error =>
          if Nat.eqb i (attempts - 1) then throw error
          else delay (retryDelay p * (i + 1)) ;;;
               sendWithRetry_loop p n attempts (S i) k'
      end
  end.

Definition sendWithRetry (p : Provider) (n : Notification) (attempts : nat)
    : M (option Receipt) :=
  sendWithRetry_loop p n attempts 0 attempts.

(** *** BaseProvider *)

Definition BaseProvider_validateNotification (n : Notification) : Outcome bool :=
  if negb (Js.truthy (title n)) && negb (Js.truthy (body n))
  then Throw (ProviderError "Notification must have either title or body")
  else Return true.

Definition BaseProvider (name : string) (enabled : bool) : Provider :=
  mkProvider name enabled 3 1000
    (fun this_enabled => this_enabled)
    (fun _ => true)
    BaseProvider_validateNotification
    (fun _ _ _ => Throw (ProviderError "Send method must be implemented by provider")).

(** *** The three variants

    Each variant reaches its transport (an SDK or HTTP call, outside the
    core) inside a [try] block; the transport answers with a result and the
    time of the answer, or fails with a message. *)

Record Reply : Type := mkReply { reply_result : string; reply_time : string }.

Definition Transport : Type := Trace -> Notification -> string + Reply.

(** The body of the [try] block shared by the variants: validate, call the
    transport, build the receipt; any failure is rethrown with the variant's
    prefix. *)
Definition guarded_send (name prefix : string) (transport : Transport)
    (tr : Trace) (n : Notification) : Outcome Receipt :=
  match BaseProvider_validateNotification n with
  | Throw e => Throw (ProviderError (prefix +++ message e))
  | Return _ =>
      match transport tr n with
      | inl msg => Throw (ProviderError (prefix +++ msg))
      | inr reply => Return (mkReceipt name (reply_result reply) (reply_time reply))
      end
  end.

Definition Firebase_canHandle (n : Notification) : bool :=
  truthy_str (token n) || truthy_arr (tokens n) || truthy_str (topic n).

(** [config_complete]: project id, private key and client email are all
    present; [init_ok]: the SDK initialisation did not throw. *)
Definition FirebaseProvider (config_complete init_ok : bool) (enabled : bool)
    (transport : Transport) : Provider :=
  let enabled' := enabled && config_complete && init_ok in
  let initialized := enabled' in
  mkProvider "Firebase" enabled' 3 1000
    (fun this_enabled => this_enabled && initialized)
    Firebase_canHandle
    BaseProvider_validateNotification
    (fun this_enabled tr n =>
       if negb this_enabled then
         Throw (ProviderError "Firebase provider is not enabled")
       else if negb initialized then
         Throw (ProviderError "Firebase provider is not initialized")
       else if negb (Firebase_canHandle n) then
         Throw (ProviderError "Firebase requires token, tokens, or topic")
       else guarded_send "Firebase" "Firebase send failed: " transport tr n).

Definition OneSignalProvider (enabled : bool) (transport : Transport) : Provider :=
  mkProvider "OneSignal" enabled 3 1000
    (fun this_enabled => this_enabled)
    (fun _ => true)
    BaseProvider_validateNotification
    (fun this_enabled tr n =>
       if negb this_enabled then
         Throw (ProviderError "OneSignal provider is not available")
       else guarded_send "OneSignal" "OneSignal send failed: " transport tr n).

(** The Pusher client exists only when the provider was constructed
    enabled; without it the call in the [try] block fails. *)
Definition PusherProvider (enabled : bool) (transport : Transport) : Provider :=
  mkProvider "Pusher" enabled 3 1000
    (fun this_enabled => this_enabled)
    (fun _ => true)
    BaseProvider_validateNotification
    (fun this_enabled tr n =>
       if negb this_enabled then
         Throw (ProviderError "Pusher provider is not available")
       else
         guarded_send "Pusher" "Pusher send failed: "
           (fun tr n =>
              if enabled then transport tr n
              else inl "Cannot read properties of undefined (reading 'trigger')")
           tr n).

(** ** NotificationService *)

(** An entry of the table [initializeProviders] builds the provider list
    from: the configured flag and priority, and the constructor call. *)
Record ProviderEntry : Type := mkProviderEntry {
  entry_enabled : bool;
  entry_priority : nat;
  entry_new : bool -> Provider
}.

(** [Array.prototype.sort] with [(a, b) => a.priority - b.priority]; the
    sort is stable. *)
Fixpoint insert_by_priority (x : nat * Provider) (l : list (nat * Provider))
    : list (nat * Provider) :=
  match l with
  | [] => [x]
  | y :: l' =>
      if Nat.ltb (fst x) (fst y) then x :: y :: l'
      else y :: insert_by_priority x l'
  end.

Definition sort_by_priority (l : list (nat * Provider)) : list (nat * Provider) :=
  fold_left (fun acc x => insert_by_priority x acc) l [].

Definition initializeProviders (table : list ProviderEntry) : list Provider :=
  map snd
    (sort_by_priority
       (map (fun p => (entry_priority p, entry_new p (entry_enabled p)))
          (filter entry_enabled table))).

(** The object [sendNotification] resolves to; a field the source leaves
    out (or sets to [undefined]) is [None]. *)
Record DispatchResult : Type := mkDispatchResult {
  success : bool;
  results : list (option Receipt);
  errors : option (list ErrorEntry);
  totalProviders : nat;
  successfulProviders : nat;
  failedProviders : nat;
  skippedProviders : option nat;
  usedProvider : option string
}.

(** [this.providers.find(p => p.getName().toLowerCase() ===
    options.provider.toLowerCase())] *)
Definition find_provider (providers : list Provider) (requested : string)
    : option Provider :=
  find (fun p => String.eqb (Js.toLowerCase (getName p)) (Js.toLowerCase requested))
    providers.

Definition disabled_entry (p : Provider) : ErrorEntry :=
  mkErrorEntry (getName p) "Provider is disabled" true.

Definition unsupported_entry (p : Provider) : ErrorEntry :=
  mkErrorEntry (getName p) "Provider cannot handle this notification type" true.

Definition failed_entry (p : Provider) (error : Error) : ErrorEntry :=
  mkErrorEntry (getName p) (message error) false.

Definition count_if (A : Type) (f : A -> bool) (l : list A) : nat :=
  length (filter f l).

(** The failover loop of [sendNotification] over the providers still to
    visit, [errors] being the array filled so far; [providers] is the whole
    list, read again for [totalProviders]. *)
Fixpoint failover (providers : list Provider) (notification : Notification)
    (todo : list Provider) (errors : list ErrorEntry) : M DispatchResult :=
  match todo with
  | [] => throw (AllProvidersFailed errors)
  | provider :: rest =>
      if negb (isEnabled provider) then
        failover providers notification rest (errors ++ [disabled_entry provider])
      else if negb (canHandle provider notification) then
        failover providers notification rest (errors ++ [unsupported_entry provider])
      else
        r <- attempt (sendWithRetry provider notification (retryAttempts provider)) ;;
        match r with
        | Return result =>
            ret (mkDispatchResult true [result]
                   (if Nat.ltb 0 (length errors) then Some errors else None)
                   (count_if (fun p => canHandle p notification) providers)
                   1
                   (count_if (fun e => negb (err_skipped e)) errors)
                   (Some (count_if err_skipped errors))
                   (Some (getName provider)))
        | Throw error =>
            failover providers notification rest
              (errors ++ [failed_entry provider error])
        end
  end.

(** [options.provider] when it is truthy. *)
Definition requested_provider (options : Options) : option string :=
  match opt_provider options with
  | Some r => if Js.truthy r then Some r else None
  | None => None
  end.

Definition sendNotification (providers : list Provider)
    (notification : Notification) (options : Options) : M DispatchResult :=
  if Nat.eqb (length providers) 0 then throw NoProvidersAvailable
  else
    match requested_provider options with
    | Some requested =>
        match find_provider providers requested with
        | None => throw (ProviderNotFound requested)
        | Some provider =>
            r <- attempt (sendWithRetry provider notification (retryAttempts provider)) ;;
            match r with
            | Return result =>
                ret (mkDispatchResult true [result] None 1 1 0 None None)
            | Throw error => throw (FailedToSendVia requested (message error))
            end
        end
    | None => failover providers notification providers []
    end.

(** *** Bulk dispatch *)

Record Preview : Type := mkPreview { pv_title : string; pv_body : string }.

Record BulkItem : Type := mkBulkItem {
  item_index : nat;
  item_notification : Preview;
  item_result : option DispatchResult;
  item_error : option string;
  item_success : bool
}.

Record BulkSummary : Type := mkBulkSummary {
  total : nat;
  successful : nat;
  failed : nat;
  bulk_results : list BulkItem
}.

(** [body.substring(0, k) + (body.length > k ? '...' : '')] *)
Definition ellipsis (k : nat) (s : string) : string :=
  Js.prefix k s +++ (if Nat.ltb k (String.length s) then "..." else EmptyString).

(** The loop of [sendBulkNotifications] at index [i], [todo] being
    [notifications] from position [i] on. *)
Fixpoint bulk_loop (providers : list Provider) (options : Options)
    (notifications todo : list Notification) (i : nat)
    (results : list BulkItem) (totalSuccessful totalFailed : nat)
    : M BulkSummary :=
  match todo with
  | [] =>
      ret (mkBulkSummary (length notifications) totalSuccessful totalFailed results)
  | notification :: rest =>
      r <- attempt (sendNotification providers notification options) ;;
      let preview := mkPreview (title notification) (ellipsis 50 (body notification)) in
      match r with
      | Return result =>
          bulk_loop providers options notifications rest (S i)
            (results ++ [mkBulkItem i preview (Some result) None true])
            (S totalSuccessful) totalFailed
      | Throw error =>
          bulk_loop providers options notifications rest (S i)
            (results ++ [mkBulkItem i preview None (Some (message error)) false])
            totalSuccessful (S totalFailed)
      end
  end.

Definition sendBulkNotifications (providers : list Provider)
    (notifications : list Notification) (options : Options) : M BulkSummary :=
  bulk_loop providers options notifications notifications 0 [] 0 0.

(** *** Management and compatibility check *)

Record ProviderInfo : Type := mkProviderInfo {
  info_name : string;
  info_enabled : bool;
  info_priority : nat
}.

Fixpoint getAvailableProviders_from (i : nat) (providers : list Provider)
    : list ProviderInfo :=
  match providers with
  | [] => []
  | p :: rest =>
      mkProviderInfo (getName p) (isEnabled p) (i + 1)
      :: getAvailableProviders_from (S i) rest
  end.

Definition getAvailableProviders (providers : list Provider) : list ProviderInfo :=
  getAvailableProviders_from 0 providers.

(** [updateProviderStatus]: the flag of the first provider whose name
    matches is overwritten; the result says whether one was found. *)
Fixpoint updateProviderStatus (providers : list Provider) (providerName : string)
    (e : bool) : bool * list Provider :=
  match providers with
  | [] => (false, [])
  | p :: rest =>
      if String.eqb (Js.toLowerCase (getName p)) (Js.toLowerCase providerName)
      then (true, set_enabled p e :: rest)
      else let (found, rest') := updateProviderStatus rest providerName e in
           (found, p :: rest')
  end.

Record ProviderReport : Type := mkProviderReport {
  rep_name : string;
  rep_canHandle : bool;
  rep_valid : bool;
  rep_error : option string
}.

Record ValidationError : Type := mkValidationError {
  verr_provider : string;
  verr_error : string
}.

Record Validation : Type := mkValidation {
  valid : bool;
  providers_report : list ProviderReport;
  validation_errors : list ValidationError
}.

Fixpoint validate_loop (todo : list Provider) (notification : Notification)
    (validation : Validation) : Validation :=
  match todo with
  | [] => validation
  | provider :: rest =>
      if negb (isEnabled provider) then validate_loop rest notification validation
      else
        match validateNotification provider notification with
        | Return _ =>
            let can := canHandle provider notification in
            validate_loop rest notification
              (mkValidation
                 (if can then true else valid validation)
                 (providers_report validation ++
                    [mkProviderReport (getName provider) can true None])
                 (validation_errors validation))
        | Throw error =>
            validate_loop rest notification
              (mkValidation
                 (valid validation)
                 (providers_report validation ++
                    [mkProviderReport (getName provider) false false
                       (Some (message error))])
                 (validation_errors validation ++
                    [mkValidationError (getName provider) (message error)]))
        end
  end.

Definition validateNotificationForProviders (providers : list Provider)
    (notification : Notification) : M Validation :=
  ret (validate_loop providers notification (mkValidation false [] [])).

(** ** SchedulerService *)

(** [/^([0-1]?[0-9]|2[0-3]):[0-5][0-9]$/] *)
Definition time_pattern : Regex.re :=
  Regex.Seq
    (Regex.Alt
       (Regex.Seq (Regex.Opt (Regex.Range "0" "1")) (Regex.Range "0" "9"))
       (Regex.Seq (Regex.Chr "2") (Regex.Range "0" "3")))
    (Regex.Seq (Regex.Chr ":")
       (Regex.Seq (Regex.Range "0" "5") (Regex.Range "0" "9"))).

(** A moment in a zone, by its local calendar fields ([month] from 0).
    Two moments of one zone are compared field by field. *)
Record Moment : Type := mkMoment {
  mo_year : nat;
  mo_month : nat;
  mo_date : nat;
  mo_hours : nat;
  mo_minutes : nat;
  mo_seconds : nat;
  mo_milliseconds : nat
}.

Definition leap_year (y : nat) : bool :=
  Nat.eqb (y mod 4) 0 && (negb (Nat.eqb (y mod 100) 0) || Nat.eqb (y mod 400) 0).

Definition days_in_month (y m : nat) : nat :=
  match m with
  | 1 => if leap_year y then 29 else 28
  | 3 | 5 | 8 | 10 => 30
  | _ => 31
  end.

(** [m.add(1, 'day')] *)
Definition add_day (m : Moment) : Moment :=
  if Nat.ltb (mo_date m) (days_in_month (mo_year m) (mo_month m)) then
    mkMoment (mo_year m) (mo_month m) (S (mo_date m))
      (mo_hours m) (mo_minutes m) (mo_seconds m) (mo_milliseconds m)
  else if Nat.ltb (mo_month m) 11 then
    mkMoment (mo_year m) (S (mo_month m)) 1
      (mo_hours m) (mo_minutes m) (mo_seconds m) (mo_milliseconds m)
  else
    mkMoment (S (mo_year m)) 0 1
      (mo_hours m) (mo_minutes m) (mo_seconds m) (mo_milliseconds m).

Fixpoint lex_lt (a b : list nat) : bool :=
  match a, b with
  | x :: a', y :: b' => Nat.ltb x y || (Nat.eqb x y && lex_lt a' b')
  | _, _ => false
  end.

Definition moment_fields (m : Moment) : list nat :=
  [mo_year m; mo_month m; mo_date m; mo_hours m; mo_minutes m; mo_seconds m;
   mo_milliseconds m].

Definition isBefore (a b : Moment) : bool :=
  lex_lt (moment_fields a) (moment_fields b).

Definition pad2 (n : nat) : string :=
  if Nat.ltb n 10 then "0" +++ Js.of_nat n else Js.of_nat n.

Definition pad4 (n : nat) : string :=
  if Nat.ltb n 10 then "000" +++ Js.of_nat n
  else if Nat.ltb n 100 then "00" +++ Js.of_nat n
  else if Nat.ltb n 1000 then "0" +++ Js.of_nat n
  else Js.of_nat n.

(** [m.format('YYYY-MM-DD HH:mm:ss z')], [abbr] being the zone abbreviation. *)
Definition format_moment (abbr : string) (m : Moment) : string :=
  pad4 (mo_year m) +++ "-" +++ pad2 (mo_month m + 1) +++ "-" +++ pad2 (mo_date m)
  +++ " " +++ pad2 (mo_hours m) +++ ":" +++ pad2 (mo_minutes m) +++ ":" +++
  pad2 (mo_seconds m) +++ " " +++ abbr.

(** What the scheduler reads from outside at one call: the clock, the
    random source, the zone database and the cron library (none of them in
    the core). *)
Record Env : Type := mkEnv {
  env_Date_now : N;
  env_random : string;
  env_moment_tz : string -> Moment;
  env_zone_abbr : string -> string;
  env_zone_exists : string -> bool;
  env_cron_rejects : string -> string -> option string;
  env_cron_status : option (bool -> string);
  env_toISOString : string
}.

Record Schedule : Type := mkSchedule {
  sch_time : option string;
  sch_timezone : option string;
  sch_frequency : option string
}.

(** Destructuring default: [{ x = d } = schedule]. *)
Definition default (A : Type) (d : A) (o : option A) : A :=
  match o with Some x => x | None => d end.

(** What the callback given to [cron.schedule] closes over. *)
Record Callback : Type := mkCallback {
  cb_jobId : string;
  cb_frequency : string;
  cb_notification : Notification;
  cb_options : Options
}.

(** A cron task: its expression, zone and callback, and whether it is
    started. *)
Record Task : Type := mkTask {
  task_expression : string;
  task_timezone : string;
  task_callback : Callback;
  task_started : bool
}.

Definition task_start (t : Task) : Task :=
  mkTask (task_expression t) (task_timezone t) (task_callback t) true.

(** [cron.schedule(expression, callback, { scheduled: false, timezone })] *)
Definition cron_schedule (env : Env) (expression : string) (callback : Callback)
    (timezone : string) : Outcome Task :=
  match env_cron_rejects env expression timezone with
  | Some msg => Throw (CronError msg)
  | None => Return (mkTask expression timezone callback false)
  end.

Record JobSchedule : Type := mkJobSchedule {
  js_time : string;
  js_timezone : string;
  js_frequency : string;
  js_cronExpression : string;
  js_scheduledFor : string
}.

Record Job : Type := mkJob {
  job_id : string;
  job_notification : Preview;
  job_schedule : JobSchedule;
  job_task : Task;
  job_createdAt : string;
  job_options : Options
}.

(** The [Map] of jobs: keys in insertion order, one entry per key. *)
Definition JobMap : Type := list (string * Job).

Fixpoint map_get (k : string) (m : JobMap) : option Job :=
  match m with
  | [] => None
  | (k', v) :: m' => if String.eqb k k' then Some v else map_get k m'
  end.

Fixpoint map_set (k : string) (v : Job) (m : JobMap) : JobMap :=
  match m with
  | [] => [(k, v)]
  | (k', v') :: m' =>
      if String.eqb k k' then (k, v) :: m' else (k', v') :: map_set k v m'
  end.

Definition map_delete (k : string) (m : JobMap) : JobMap :=
  filter (fun kv => negb (String.eqb k (fst kv))) m.

Definition map_values (m : JobMap) : list Job := map snd m.

Record SchedulerService : Type := mkScheduler {
  jobs : JobMap;
  running : bool
}.

(** [new SchedulerService()] *)
Definition new_scheduler : SchedulerService := mkScheduler [] false.

Definition start (s : SchedulerService) : SchedulerService :=
  mkScheduler (jobs s) true.

(** Every task is stopped, then the map is cleared. *)
Definition stop (s : SchedulerService) : SchedulerService :=
  mkScheduler [] false.

Definition isRunning (s : SchedulerService) : bool := running s.

Record ScheduleResult : Type := mkScheduleResult {
  sr_jobId : string;
  sr_scheduledFor : string;
  sr_frequency : string;
  sr_timezone : string;
  sr_cronExpression : string
}.

(** The trigger rule: the cron expression and the [scheduledFor] text.  The
    two readings of the clock the source makes in a row are one reading
    here. *)
Definition trigger_rule (env : Env) (hours minutes : nat)
    (timezone frequency : string) : string * string :=
  if String.eqb frequency "daily" then
    (Js.of_nat minutes +++ " " +++ Js.of_nat hours +++ " * * *", "daily")
  else
    let now := env_moment_tz env timezone in
    let targetTime :=
      mkMoment (mo_year now) (mo_month now) (mo_date now) hours minutes 0
        (mo_milliseconds now) in
    let targetTime :=
      if isBefore targetTime now then add_day targetTime else targetTime in
    (Js.of_nat minutes +++ " " +++ Js.of_nat hours +++ " " +++
     Js.of_nat (mo_date targetTime) +++ " " +++
     Js.of_nat (mo_month targetTime + 1) +++ " *",
     format_moment (env_zone_abbr env timezone) targetTime).

Definition scheduleNotification (env : Env) (notification : Notification)
    (schedule : Schedule) (options : Options) (s : SchedulerService)
    : Outcome ScheduleResult * SchedulerService :=
  if negb (running s) then (Throw SchedulerNotRunning, s)
  else
    let timezone := default "UTC" (sch_timezone schedule) in
    let frequency := default "once" (sch_frequency schedule) in
    match sch_time schedule with
    | None => (Throw InvalidTimeFormat, s)
    | Some time =>
        if negb (Js.truthy time) || negb (Regex.test time_pattern time) then
          (Throw InvalidTimeFormat, s)
        else
          let parts := map Js.Number (Js.split ":" time) in
          let hours := nth 0 parts 0 in
          let minutes := nth 1 parts 0 in
          let jobId :=
            "notif_" +++ Js.of_N (env_Date_now env) +++ "_" +++ env_random env in
          let (cronExpression, scheduledFor) :=
            trigger_rule env hours minutes timezone frequency in
          match cron_schedule env cronExpression
                  (mkCallback jobId frequency notification options) timezone with
          | Throw e => (Throw e, s)
          | Return task =>
              (* the map holds the task object itself, so [task.start()]
                 after [jobs.set] shows in the stored job *)
              let job :=
                mkJob jobId
                  (mkPreview (title notification) (Js.prefix 100 (body notification)))
                  (mkJobSchedule time timezone frequency cronExpression scheduledFor)
                  (task_start task)
                  (env_toISOString env)
                  options in
              (Return (mkScheduleResult jobId scheduledFor frequency timezone
                         cronExpression),
               mkScheduler (map_set jobId job (jobs s)) (running s))
          end
    end.

Definition removeJob (jobId : string) (s : SchedulerService)
    : bool * SchedulerService :=
  match map_get jobId (jobs s) with
  | Some _ => (true, mkScheduler (map_delete jobId (jobs s)) (running s))
  | None => (false, s)
  end.

Record JobView : Type := mkJobView {
  view_id : string;
  view_notification : Preview;
  view_schedule : JobSchedule;
  view_createdAt : string;
  view_status : string
}.

Definition job_view (env : Env) (job : Job) : JobView :=
  mkJobView (job_id job) (job_notification job) (job_schedule job)
    (job_createdAt job)
    (match env_cron_status env with
     | Some getStatus => getStatus (task_started (job_task job))
     | None => "unknown"
     end).

Definition getJob (env : Env) (jobId : string) (s : SchedulerService)
    : option JobView :=
  option_map (job_view env) (map_get jobId (jobs s)).

Definition getActiveJobs (env : Env) (s : SchedulerService) : list JobView :=
  map (job_view env) (map_values (jobs s)).

(** [validateSchedule]; [None] is a schedule that is not an object. *)
Definition validateSchedule (env : Env) (schedule : option Schedule)
    : Outcome bool :=
  match schedule with
  | None => Throw ScheduleNotObject
  | Some schedule =>
      let timezone := default "UTC" (sch_timezone schedule) in
      let frequency := default "once" (sch_frequency schedule) in
      match sch_time schedule with
      | None => Throw ScheduleTimeRequired
      | Some time =>
          if negb (Js.truthy time) then Throw ScheduleTimeRequired
          else if negb (Regex.test time_pattern time) then Throw InvalidTimeFormat
          else if negb (env_zone_exists env timezone) then Throw InvalidTimezone
          else if negb (String.eqb frequency "once" || String.eqb frequency "daily")
          then Throw InvalidFrequency
          else Return true
      end
  end.

(** The callback of a job's task, run when the trigger fires: dispatch, then
    remove the job when its frequency is ['once'], on success and on failure
    alike.  The provider list is the service's current one. *)
Definition run_callback (providers : list Provider) (cb : Callback)
    (s : SchedulerService) : M SchedulerService :=
  r <- attempt (sendNotification providers (cb_notification cb) (cb_options cb)) ;;
  match r with
  | Return _ =>
      if String.eqb (cb_frequency cb) "once"
      then ret (snd (removeJob (cb_jobId cb) s)) else ret s
  | Throw _ =>
      if String.eqb (cb_frequency cb) "once"
      then ret (snd (removeJob (cb_jobId cb) s)) else ret s
  end.

(** The trigger of job [jobId] fires: the callback of its task runs, when
    the job is registered and its task started. *)
Definition fire (providers : list Provider) (jobId : string)
    (s : SchedulerService) : M SchedulerService :=
  match map_get jobId (jobs s) with
  | Some job =>
      if task_started (job_task job)
      then run_callback providers (task_callback (job_task job)) s
      else ret s
  | None => ret s
  end.

(** The operations on a scheduler, for sequences of calls. *)
Inductive Op : Type :=
| OpStart
| OpStop
| OpSchedule (env : Env) (notification : Notification) (schedule : Schedule)
    (options : Options)
| OpRemove (jobId : string)
| OpFire (jobId : string)
| OpCallback (cb : Callback).

Definition is_start (op : Op) : bool :=
  match op with OpStart => true | _ => false end.

Definition step (providers : list Provider) (op : Op) (s : SchedulerService)
    : M SchedulerService :=
  match op with
  | OpStart => ret (start s)
  | OpStop => ret (stop s)
  | OpSchedule env notification schedule options =>
      ret (snd (scheduleNotification env notification schedule options s))
  | OpRemove jobId => ret (snd (removeJob jobId s))
  | OpFire jobId => fire providers jobId s
  | OpCallback cb => run_callback providers cb s
  end.

Fixpoint steps (providers : list Provider) (ops : list Op)
    (s : SchedulerService) : M SchedulerService :=
  match ops with
  | [] => ret s
  | op :: rest => s' <- step providers op s ;; steps providers rest s'
  end.

(** ** Vocabulary of the properties *)

(** The trace left by [j] failed iterations of the retry loop, the first of
    them being iteration [i]: a [send], then the wait before the retry. *)
Fixpoint retry_trace (p : Provider) (n : Notification) (i j : nat) : Trace :=
  match j with
  | 0 => []
  | S j' =>
      EvSend (name p) n :: EvDelay (retryDelay p * (i + 1))
      :: retry_trace p n (S i) j'
  end.

(** The outcome of call number [m] (from 0) of [send] inside a
    [sendWithRetry] that started on trace [tr], the calls before it having
    failed. *)
Definition call_outcome (p : Provider) (n : Notification) (tr : Trace) (m : nat)
    : Outcome Receipt :=
  send_of p (enabled p) (tr ++ retry_trace p n 0 m) n.

(** The waits of a trace, and the number of [send] calls of one provider. *)
Definition delays (tr : Trace) : list nat :=
  flat_map (fun ev => match ev with EvDelay ms => [ms] | EvSend _ _ => [] end) tr.

Definition is_send_of (pname : string) (ev : Event) : bool :=
  match ev with
  | EvSend q _ => String.eqb q pname
  | EvDelay _ => false
  end.

Definition count_sends (pname : string) (tr : Trace) : nat :=
  count_if (is_send_of pname) tr.

(** The order of the provider list: ascending priority number. *)
Definition by_priority (a b : nat * Provider) : Prop := fst a <= fst b.

(** The provider bears the requested name, letter case apart. *)
Definition same_name (requested : string) (p : Provider) : Prop :=
  Js.toLowerCase (getName p) = Js.toLowerCase requested.

(** An event that is a wait, or a send of one of the providers [names]. *)
Definition sent_by (names : list string) (ev : Event) : Prop :=
  match ev with
  | EvSend q _ => In q names
  | EvDelay _ => True
  end.

(** A provider takes part in the failover when it is enabled and can handle
    the notification. *)
Definition eligible (n : Notification) (p : Provider) : bool :=
  isEnabled p && canHandle p n.

(** [Exhausted n ps tr errs tr']: visited in order from trace [tr], every
    provider of [ps] is skipped (disabled, or unable to handle [n]) or is
    tried and fails after its retries; [errs] are the entries recorded and
    [tr'] the trace at the end. *)
Inductive Exhausted (n : Notification)
    : list Provider -> Trace -> list ErrorEntry -> Trace -> Prop :=
| Exhausted_nil : forall tr, Exhausted n [] tr [] tr
| Exhausted_disabled : forall p ps tr errs tr',
    isEnabled p = false ->
    Exhausted n ps tr errs tr' ->
    Exhausted n (p :: ps) tr (disabled_entry p :: errs) tr'
| Exhausted_unsupported : forall p ps tr errs tr',
    isEnabled p = true ->
    canHandle p n = false ->
    Exhausted n ps tr errs tr' ->
    Exhausted n (p :: ps) tr (unsupported_entry p :: errs) tr'
| Exhausted_failed : forall p ps tr e tr1 errs tr',
    isEnabled p = true ->
    canHandle p n = true ->
    sendWithRetry p n (retryAttempts p) tr = (Throw e, tr1) ->
    Exhausted n ps tr1 errs tr' ->
    Exhausted n (p :: ps) tr (failed_entry p e :: errs) tr'.

(** [Dispatched ps o ns tr outs tr']: the notifications [ns] are dispatched
    one after the other, each from the trace the one before left; [outs] are
    the outcomes in order. *)
Inductive Dispatched (providers : list Provider) (options : Options)
    : list Notification -> Trace -> list (Outcome DispatchResult) -> Trace -> Prop :=
| Dispatched_nil : forall tr, Dispatched providers options [] tr [] tr
| Dispatched_cons : forall n ns tr o tr1 outs tr',
    sendNotification providers n options tr = (o, tr1) ->
    Dispatched providers options ns tr1 outs tr' ->
    Dispatched providers options (n :: ns) tr (o :: outs) tr'.

Definition is_return (A : Type) (o : Outcome A) : bool :=
  match o with Return _ => true | Throw _ => false end.

Definition is_throw (A : Type) (o : Outcome A) : bool := negb (is_return o).

Arguments is_return {A} o.
Arguments is_throw {A} o.

(** The entry of the bulk result for the notification at position [i],
    dispatched with outcome [o]; and the entries for a list of notifications
    from position [i] on. *)
Definition bulk_item (i : nat) (n : Notification) (o : Outcome DispatchResult)
    : BulkItem :=
  let preview := mkPreview (title n) (ellipsis 50 (body n)) in
  match o with
  | Return result => mkBulkItem i preview (Some result) None true
  | Throw error => mkBulkItem i preview None (Some (message error)) false
  end.

Fixpoint bulk_items (i : nat) (ns : list Notification)
    (outs : list (Outcome DispatchResult)) : list BulkItem :=
  match ns, outs with
  | n :: ns', o :: outs' => bulk_item i n o :: bulk_items (S i) ns' outs'
  | _, _ => []
  end.

(** The report of the compatibility check on one enabled provider. *)
Definition report_of (n : Notification) (p : Provider) : ProviderReport :=
  match validateNotification p n with
  | Return _ => mkProviderReport (getName p) (canHandle p n) true None
  | Throw error => mkProviderReport (getName p) false false (Some (message error))
  end.

(** The notification passes the provider's own validation. *)
Definition passes (n : Notification) (p : Provider) : bool :=
  is_return (validateNotification p n).

(** The entry of [errors] the compatibility check adds for one enabled
    provider, if any. *)
Definition validation_error_of (n : Notification) (p : Provider)
    : list ValidationError :=
  match validateNotification p n with
  | Return _ => []
  | Throw error => [mkValidationError (getName p) (message error)]
  end.

(** The entries of the registry are coherent: a job is stored under its own
    identifier, and the callback of its task carries that identifier and the
    job's frequency. *)
Definition coherent (jobId : string) (job : Job) : Prop :=
  job_id job = jobId /\
  cb_jobId (task_callback (job_task job)) = jobId /\
  cb_frequency (task_callback (job_task job)) = js_frequency (job_schedule job).

Definition well_formed (s : SchedulerService) : Prop :=
  forall jobId job, In (jobId, job) (jobs s) -> coherent jobId job.

(** ** Test doubles and sample inputs *)

(** A provider with the defaults of [BaseProvider] whose [send] fails while
    fewer than [k] calls of it are on the trace, and succeeds from then on. *)
Definition flaky (pname : string) (k : nat) : Provider :=
  mkProvider pname true 3 1000
    (fun this_enabled => this_enabled)
    (fun _ => true)
    BaseProvider_validateNotification
    (fun _ tr _ =>
       if Nat.ltb (count_sends pname tr) k
       then Throw (ProviderError "temporary failure")
       else Return (mkReceipt pname "delivered" "now")).

(** A transport that always answers. *)
Definition ok_transport : Transport :=
  fun _ _ => inr (mkReply "ok" "now").

(** A transport that always fails. *)
Definition down_transport : Transport :=
  fun _ _ => inl "connection refused".

Definition sample : Notification :=
  mkNotification "Hello" "World" None None None None None.

Definition blank : Notification :=
  mkNotification EmptyString EmptyString None None None None None.

Definition via (pname : string) : Options := mkOptions (Some pname) None None.

(** Noon of the 1st of November 2026 in every zone; the cron library accepts
    every expression and zone. *)
Definition sample_env : Env :=
  mkEnv 1793534400000%N "k3x9q2m1a"
    (fun _ => mkMoment 2026 10 1 12 0 0 0)
    (fun tz => tz)
    (fun tz => String.eqb tz "UTC")
    (fun _ _ => None)
    None
    "2026-11-01T12:00:00.000Z".

Definition at_time (time frequency : string) : Schedule :=
  mkSchedule (Some time) (Some "UTC") (Some frequency).

(** ** Further code of the repository *)

(** *** The provider table

    The table [initializeProviders] reads: the three variants with the
    priorities of [providerConfig]; whether each is enabled comes from the
    process environment. *)
Definition provider_table (firebase_enabled onesignal_enabled pusher_enabled : bool)
    (config_complete init_ok : bool)
    (firebase_transport onesignal_transport pusher_transport : Transport)
    : list ProviderEntry :=
  [mkProviderEntry firebase_enabled 1
     (fun e => FirebaseProvider config_complete init_ok e firebase_transport);
   mkProviderEntry onesignal_enabled 2
     (fun e => OneSignalProvider e onesignal_transport);
   mkProviderEntry pusher_enabled 3
     (fun e => PusherProvider e pusher_transport)].

(** *** The error handler of the application *)

(** [s.includes(pat)] *)
Fixpoint startsWith (pat s : string) : bool :=
  match pat, s with
  | EmptyString, _ => true
  | String a pat', String b s' => Ascii.eqb a b && startsWith pat' s'
  | String _ _, EmptyString => false
  end.

Fixpoint includes (pat s : string) : bool :=
  startsWith pat s ||
  match s with
  | EmptyString => false
  | String _ s' => includes pat s'
  end.

(** What the handler reads of the error object. *)
Record Err : Type := mkErr {
  err_name : option string;
  err_code : option N;
  err_message : option string
}.

Record ErrorResponse : Type := mkErrorResponse {
  er_status : nat;
  er_success : bool;
  er_message : string;
  er_type : string;
  er_error_message : option string;
  er_validation : option (option string)
}.

Definition name_is (err : Err) (n : string) : bool :=
  match err_name err with Some m => String.eqb m n | None => false end.

Definition message_includes (err : Err) (pat : string) : bool :=
  match err_message err with
  | Some m => Js.truthy m && includes pat m
  | None => false
  end.

Definition errorHandler (err : Err) : ErrorResponse :=
  let '(status, msg, details) :=
    if name_is err "ValidationError" then
      (400, "Validation Error", Some (err_message err))
    else if name_is err "CastError" then (400, "Invalid ID format", None)
    else if match err_code err with Some c => N.eqb c 11000 | None => false end
    then (409, "Duplicate field value", None)
    else if name_is err "UnauthorizedError" then (401, "Unauthorized", None)
    else if name_is err "ForbiddenError" then (403, "Forbidden", None)
    else if message_includes err "timeout" then (408, "Request Timeout", None)
    else if message_includes err "rate limit" then (429, "Rate Limit Exceeded", None)
    else (500, "Internal Server Error", None) in
  mkErrorResponse status false msg
    (match err_name err with
     | Some n => if Js.truthy n then n else "UnknownError"
     | None => "UnknownError"
     end)
    (err_message err) details.

(** An error thrown by the core is a plain [Error]. *)
Definition as_Err (e : Error) : Err :=
  mkErr (Some "Error") None (Some (message e)).

(** *** The package's configuration summary *)

Record ConfiguredProviders : Type := mkConfiguredProviders {
  cp_firebase : bool;
  cp_onesignal : bool;
  cp_pusher : bool;
  cp_enabledCount : nat;
  cp_totalProviders : nat;
  cp_allConfigured : bool
}.

(** [utils.getConfiguredProviders] *)
Definition getConfiguredProviders (firebase onesignal pusher : Provider)
    : ConfiguredProviders :=
  let enabledCount :=
    count_if (fun b : bool => b)
      [isEnabled firebase; isEnabled onesignal; isEnabled pusher] in
  mkConfiguredProviders (isEnabled firebase) (isEnabled onesignal)
    (isEnabled pusher) enabledCount 4 (Nat.eqb enabledCount 4).

(** *** The routes

    A route handler answers with a status, the [success] flag, a message,
    the error text when there is one, and its data. *)

Record ScheduleItem : Type := mkScheduleItem {
  si_index : nat;
  si_success : bool;
  si_result : option ScheduleResult;
  si_error : option string;
  si_notification : Preview
}.

Inductive Payload : Type :=
| NoData
| SentData (result : DispatchResult)
| ScheduledData (result : ScheduleResult) (preview : Preview)
| BulkSentData (summary : BulkSummary)
| BulkScheduledData (total successful failed : nat) (results : list ScheduleItem)
| ProviderUpdatedData (provider : string) (enabled : bool)
| JobData (job : JobView)
| CancelledData (jobId : string).

Record Response : Type := mkResponse {
  status : nat;
  res_success : bool;
  res_message : string;
  res_error : option string;
  res_data : Payload
}.


(** The scheduling loop of [POST /send/bulk] at index [i]; [envs i] is what
    call number [i] of [scheduleNotification] reads from outside. *)
Fixpoint schedule_each (envs : nat -> Env) (schedule : Schedule) (options : Options)
    (todo : list Notification) (i : nat) (scheduleResults : list ScheduleItem)
    (s : SchedulerService) : list ScheduleItem * SchedulerService :=
  match todo with
  | [] => (scheduleResults, s)
  | notification :: rest =>
      let preview :=
        mkPreview (title notification) (ellipsis 50 (body notification)) in
      match scheduleNotification (envs i) notification schedule options s with
      | (Return scheduleResult, s') =>
          schedule_each envs schedule options rest (S i)
            (scheduleResults ++
             [mkScheduleItem i true (Some scheduleResult) None preview])
            s'
      | (Throw error, s') =>
          schedule_each envs schedule options rest (S i)
            (scheduleResults ++
             [mkScheduleItem i false None (Some (message error)) preview])
            s'
      end
  end.

(** [POST /send/bulk], past the request validation. *)
Definition route_send_bulk (envs : nat -> Env) (providers : list Provider)
    (notifications : list Notification) (options : option Options)
    (schedule : option Schedule) (s : SchedulerService)
    : M (Response * SchedulerService) :=
  let options := default no_options options in
  match schedule with
  | Some schedule =>
      let (scheduleResults, s') :=
        schedule_each envs schedule options notifications 0 [] s in
      let successCount := count_if si_success scheduleResults in
      let failureCount := length scheduleResults - successCount in
      ret (mkResponse 200 (Nat.ltb 0 successCount)
             ("Bulk notifications scheduled: " +++ Js.of_nat successCount +++
              " scheduled, " +++ Js.of_nat failureCount +++ " failed")
             None
             (BulkScheduledData (length notifications) successCount failureCount
                scheduleResults),
           s')
  | None =>
      r <- attempt (sendBulkNotifications providers notifications options) ;;
      match r with
      | Return results =>
          ret (mkResponse 200 (Nat.ltb 0 (successful results))
                 ("Bulk notification completed: " +++
                  Js.of_nat (successful results) +++ " sent, " +++
                  Js.of_nat (failed results) +++ " failed")
                 None (BulkSentData results),
               s)
      | Throw error =>
          ret (mkResponse 400 false "Failed to process bulk notification request"
                 (Some (message error)) NoData,
               s)
      end
  end.

(** [PATCH /providers/:name]; [enabled] is [None] when the body's field is
    not a boolean. *)
Definition route_update_provider (providers : list Provider) (pname : string)
    (enabled : option bool) : Response * list Provider :=
  match enabled with
  | None =>
      (mkResponse 400 false "Enabled field must be a boolean" None NoData, providers)
  | Some enabled =>
      let (updated, providers') := updateProviderStatus providers pname enabled in
      if updated then
        (mkResponse 200 true
           ("Provider " +++ pname +++
            (if enabled then " enabled" else " disabled") +++ " successfully")
           None (ProviderUpdatedData pname enabled),
         providers')
      else
        (mkResponse 404 false ("Provider " +++ pname +++ " not found") None NoData,
         providers')
  end.

(** [GET /scheduled/:jobId] *)
Definition route_get_job (env : Env) (jobId : string) (s : SchedulerService)
    : Response :=
  match getJob env jobId s with
  | None => mkResponse 404 false "Scheduled job not found" None NoData
  | Some job =>
      mkResponse 200 true "Scheduled job retrieved successfully" None (JobData job)
  end.

(** [DELETE /scheduled/:jobId] *)
Definition route_cancel_job (jobId : string) (s : SchedulerService)
    : Response * SchedulerService :=
  let (removed, s') := removeJob jobId s in
  if removed then
    (mkResponse 200 true "Scheduled job cancelled successfully" None
       (CancelledData jobId),
     s')
  else (mkResponse 404 false "Scheduled job not found" None NoData, s').

(** *** Vocabulary of the further properties *)

(** The strings a regular expression denotes. *)
Inductive Matches : Regex.re -> string -> Prop :=
| Matches_Eps : Matches Regex.Eps EmptyString
| Matches_Chr : forall c, Matches (Regex.Chr c) (String c EmptyString)
| Matches_Range : forall lo hi c,
    Regex.in_range lo hi c = true ->
    Matches (Regex.Range lo hi) (String c EmptyString)
| Matches_Seq : forall r1 r2 s1 s2,
    Matches r1 s1 -> Matches r2 s2 -> Matches (Regex.Seq r1 r2) (s1 +++ s2)
| Matches_AltL : forall r1 r2 s, Matches r1 s -> Matches (Regex.Alt r1 r2) s
| Matches_AltR : forall r1 r2 s, Matches r2 s -> Matches (Regex.Alt r1 r2) s
| Matches_OptNone : forall r, Matches (Regex.Opt r) EmptyString
| Matches_OptSome : forall r s, Matches r s -> Matches (Regex.Opt r) s.

(** Text of ASCII characters.  On such text a character of the model is one
    unit of the JS string, so that [length] and [substring] count alike. *)
Definition is_ascii (s : string) : bool :=
  forallb (fun c => Nat.ltb (nat_of_ascii c) 128) (list_ascii_of_string s).

(** What a settled call returned, and the message of what it threw. *)
Definition returned (A : Type) (o : Outcome A) : option A :=
  match o with Return a => Some a | Throw _ => None end.

Definition thrown_message (A : Type) (o : Outcome A) : option string :=
  match o with Return _ => None | Throw e => Some (message e) end.

Arguments returned {A} o.
Arguments thrown_message {A} o.

(** The notifications of a bulk request scheduled one after the other from
    index [i]: every call of [scheduleNotification] starts from the scheduler
    the call before it left, and reads from outside what [envs] gives at its
    index. *)
Inductive ScheduledEach (envs : nat -> Env) (schedule : Schedule)
    (options : Options)
    : list Notification -> nat -> SchedulerService ->
      list (Outcome ScheduleResult) -> SchedulerService -> Prop :=
| ScheduledEach_nil : forall i s,
    ScheduledEach envs schedule options [] i s [] s
| ScheduledEach_cons : forall n ns i s o s1 outs s',
    scheduleNotification (envs i) n schedule options s = (o, s1) ->
    ScheduledEach envs schedule options ns (S i) s1 outs s' ->
    ScheduledEach envs schedule options (n :: ns) i s (o :: outs) s'.

(** The entries the scheduling loop of [POST /send/bulk] pushes for the
    notifications [ns] from index [i], their calls having settled as
    [outs]. *)
Fixpoint schedule_items (i : nat) (ns : list Notification)
    (outs : list (Outcome ScheduleResult)) : list ScheduleItem :=
  match ns, outs with
  | n :: ns', o :: outs' =>
      mkScheduleItem i (is_return o) (returned o) (thrown_message o)
        (mkPreview (title n) (ellipsis 50 (body n)))
      :: schedule_items (S i) ns' outs'
  | _, _ => []
  end.

(** A notification whose body has 60 characters. *)
Definition long_sample : Notification :=
  mkNotification "Report"
    "0123456789012345678901234567890123456789012345678901234567890"
    None None None None None.

(** The identifiers of the registry. *)
Definition job_ids (s : SchedulerService) : list string := map fst (jobs s).

(** A second sample environment, whose identifiers differ from those of
    [sample_env]. *)
Definition sample_env2 : Env :=
  mkEnv 1793534400001%N "z8y7x6w5v"
    (fun _ => mkMoment 2026 10 1 12 0 0 0)
    (fun tz => tz)
    (fun tz => String.eqb tz "UTC")
    (fun _ _ => None)
    None
    "2026-11-01T12:00:00.001Z".

(** * Properties *)

(** Traces that differ by the bracketing of their appends. *)
Ltac retrace := repeat rewrite <- app_assoc; simpl; try reflexivity; try assumption.

(** ** Provider list *)

Lemma insert_by_priority_sorted (x : nat * Provider) (l : list (nat * Provider)) :
  Sorted by_priority l -> Sorted by_priority (insert_by_priority x l).
Proof.
  induction 1 as [|y l Hs IH Hhd]; simpl.
  - repeat constructor.
  - destruct (Nat.ltb_spec (fst x) (fst y)) as [Hlt|Hge].
    + constructor; [now constructor|]. constructor. unfold by_priority. lia.
    + constructor; [exact IH|].
      destruct l as [|z l]; simpl; [constructor; exact Hge|].
      destruct (Nat.ltb (fst x) (fst z)); constructor;
        [exact Hge | now inversion Hhd].
Qed.

(** The providers are held in ascending order of their priority number, so
    the order of the list is the priority order. *)
Lemma initializeProviders_sorted (table : list ProviderEntry) :
  Sorted by_priority
    (sort_by_priority
       (map (fun p => (entry_priority p, entry_new p (entry_enabled p)))
          (filter entry_enabled table))).
Proof.
  unfold sort_by_priority.
  generalize (map (fun p => (entry_priority p, entry_new p (entry_enabled p)))
                (filter entry_enabled table)).
  intro l. assert (H : Sorted by_priority []) by constructor.
  revert H. generalize (@nil (nat * Provider)).
  induction l as [|x l IH]; intros acc Hacc; simpl; [exact Hacc|].
  apply IH. now apply insert_by_priority_sorted.
Qed.

(** ** Retry *)

(** One iteration of the retry loop. *)
Lemma loop_step (p : Provider) (n : Notification) (attempts i k : nat) (tr : Trace) :
  sendWithRetry_loop p n attempts i (S k) tr =
  match send_of p (enabled p) tr n with
  | Return receipt => (Return (Some receipt), tr ++ [EvSend (name p) n])
  | Throw error =>
      if Nat.eqb i (attempts - 1) then (Throw error, tr ++ [EvSend (name p) n])
      else sendWithRetry_loop p n attempts (S i) k
             (tr ++ [EvSend (name p) n; EvDelay (retryDelay p * (i + 1))])
  end.
Proof.
  cbn [sendWithRetry_loop]. unfold bind, attempt, ret, throw, delay, emit, send.
  destruct (send_of p (enabled p) tr n); [reflexivity|].
  destruct (Nat.eqb i (attempts - 1)); [reflexivity|].
  now rewrite <- app_assoc.
Qed.

(** The loop returns at its first successful call. *)
Lemma loop_first_success (p : Provider) (n : Notification) (attempts : nat) :
  forall j i k tr receipt,
    i + j < attempts -> j < k ->
    (forall m, m < j ->
       exists e, send_of p (enabled p) (tr ++ retry_trace p n i m) n = Throw e) ->
    send_of p (enabled p) (tr ++ retry_trace p n i j) n = Return receipt ->
    sendWithRetry_loop p n attempts i k tr =
    (Return (Some receipt), tr ++ retry_trace p n i j ++ [EvSend (name p) n]).
Proof.
  induction j as [|j IH]; intros i k tr receipt Hi Hk Hfail Hok;
    (destruct k as [|k]; [lia|]); rewrite loop_step.
  - simpl in Hok. rewrite app_nil_r in Hok. now rewrite Hok.
  - destruct (Hfail 0) as [e He]; [lia|].
    simpl in He. rewrite app_nil_r in He. rewrite He.
    replace (Nat.eqb i (attempts - 1)) with false
      by (symmetry; apply Nat.eqb_neq; lia).
    rewrite (IH (S i) k _ receipt); [retrace | lia | lia | | ].
    + intros m Hm. destruct (Hfail (S m)) as [e' He']; [lia|].
      exists e'. simpl in He'. retrace.
    + simpl in Hok. retrace.
Qed.

(** When every call fails, the loop throws the error of the last one. *)
Lemma loop_all_fail (p : Provider) (n : Notification) (attempts : nat) :
  forall k i tr (err : nat -> Error),
    i + S k = attempts ->
    (forall m, m <= k ->
       send_of p (enabled p) (tr ++ retry_trace p n i m) n = Throw (err m)) ->
    sendWithRetry_loop p n attempts i (S k) tr =
    (Throw (err k), tr ++ retry_trace p n i k ++ [EvSend (name p) n]).
Proof.
  induction k as [|k IH]; intros i tr err Hi Hfail; rewrite loop_step;
    pose proof (Hfail 0 (Nat.le_0_l _)) as H0; simpl in H0;
    rewrite app_nil_r in H0; rewrite H0.
  - replace (Nat.eqb i (attempts - 1)) with true
      by (symmetry; apply Nat.eqb_eq; lia).
    reflexivity.
  - replace (Nat.eqb i (attempts - 1)) with false
      by (symmetry; apply Nat.eqb_neq; lia).
    rewrite (IH (S i) _ (fun m => err (S m))); [retrace | lia | ].
    intros m Hm. specialize (Hfail (S m) ltac:(lia)).
    simpl in Hfail. retrace.
Qed.

(** The events a retry loop adds are sends of its own provider and waits. *)
Lemma loop_trace (p : Provider) (n : Notification) (attempts : nat) :
  forall k i tr,
    exists delta,
      snd (sendWithRetry_loop p n attempts i k tr) = tr ++ delta /\
      Forall (sent_by [name p]) delta.
Proof.
  induction k as [|k IH]; intros i tr.
  - exists []. simpl. now rewrite app_nil_r.
  - rewrite loop_step.
    destruct (send_of p (enabled p) tr n) as [receipt|e].
    + exists [EvSend (name p) n]. split; [reflexivity|].
      constructor; [simpl; auto | constructor].
    + destruct (Nat.eqb i (attempts - 1)).
      * exists [EvSend (name p) n]. split; [reflexivity|].
        constructor; [simpl; auto | constructor].
      * destruct (IH (S i) (tr ++ [EvSend (name p) n;
                                   EvDelay (retryDelay p * (i + 1))]))
          as (delta & Hd & Hall).
        exists (EvSend (name p) n :: EvDelay (retryDelay p * (i + 1)) :: delta).
        split.
        -- rewrite Hd. retrace.
        -- constructor; [simpl; auto|]. constructor; [exact I | exact Hall].
Qed.

Lemma count_sends_app (q : string) (a b : Trace) :
  count_sends q (a ++ b) = count_sends q a + count_sends q b.
Proof.
  unfold count_sends, count_if. now rewrite filter_app, length_app.
Qed.

Lemma delays_app (a b : Trace) : delays (a ++ b) = delays a ++ delays b.
Proof. unfold delays. apply flat_map_app. Qed.

Lemma count_sends_retry_trace (p : Provider) (n : Notification) (j i : nat) :
  count_sends (name p) (retry_trace p n i j) = j.
Proof.
  revert i; induction j as [|j IH]; intro i; [reflexivity|].
  simpl. unfold count_sends, count_if in *. simpl.
  rewrite String.eqb_refl. simpl. now rewrite IH.
Qed.

Lemma delays_retry_trace (p : Provider) (n : Notification) (j i : nat) :
  delays (retry_trace p n i j) = map (fun m => retryDelay p * (m + 1)) (seq i j).
Proof.
  revert i; induction j as [|j IH]; intro i; [reflexivity|].
  simpl. now rewrite <- IH.
Qed.

Lemma count_sends_last (p : Provider) (n : Notification) :
  count_sends (name p) [EvSend (name p) n] = 1.
Proof. unfold count_sends, count_if. simpl. now rewrite String.eqb_refl. Qed.

(** C4 (as amended): [sendWithRetry] with [attempts = 3] on a provider whose
    [send] fails on the first two calls and succeeds on the third returns
    that success after exactly three [send] calls, having waited once the
    base delay after the first failure and twice the base delay after the
    second (there is no third wait).  In general [sendWithRetry] returns the
    first successful [send] after [j + 1] calls and [j] waits of 1, ..., [j]
    times the base delay, leaving the remaining attempts unused; and when all
    [attempts >= 1] calls fail, it throws the error of the last call after
    [attempts] calls and [attempts - 1] waits. *)
Theorem sendWithRetry_linear_backoff :
  forall (p : Provider) (n : Notification) (tr : Trace),
    (forall e1 e2 receipt,
        call_outcome p n tr 0 = Throw e1 ->
        call_outcome p n tr 1 = Throw e2 ->
        call_outcome p n tr 2 = Return receipt ->
        sendWithRetry p n 3 tr =
        (Return (Some receipt),
         tr ++ [EvSend (name p) n; EvDelay (retryDelay p * 1);
                EvSend (name p) n; EvDelay (retryDelay p * 2);
                EvSend (name p) n]))
    /\
    (forall attempts j receipt,
        j < attempts ->
        (forall m, m < j -> is_throw (call_outcome p n tr m) = true) ->
        call_outcome p n tr j = Return receipt ->
        exists tr',
          sendWithRetry p n attempts tr = (Return (Some receipt), tr') /\
          count_sends (name p) tr' = count_sends (name p) tr + (j + 1) /\
          delays tr' =
          delays tr ++ map (fun i => retryDelay p * (i + 1)) (seq 0 j))
    /\
    (forall attempts (err : nat -> Error),
        0 < attempts ->
        (forall m, m < attempts -> call_outcome p n tr m = Throw (err m)) ->
        exists tr',
          sendWithRetry p n attempts tr = (Throw (err (attempts - 1)), tr') /\
          count_sends (name p) tr' = count_sends (name p) tr + attempts /\
          delays tr' =
          delays tr ++
          map (fun i => retryDelay p * (i + 1)) (seq 0 (attempts - 1))).
Proof.
  intros p n tr. unfold call_outcome, sendWithRetry. repeat split.
  - intros e1 e2 receipt H0 H1 H2.
    rewrite (@loop_first_success p n 3 2 0 3 tr receipt); [reflexivity | lia | lia | | exact H2].
    intros m Hm. destruct m as [|[|m]]; [now exists e1 | now exists e2 | lia].
  - intros attempts j receipt Hj Hfail Hok.
    eexists. split.
    + apply (@loop_first_success p n attempts j 0 attempts tr receipt);
        [lia | lia | | exact Hok].
      intros m Hm. specialize (Hfail m Hm).
      destruct (send_of p (enabled p) (tr ++ retry_trace p n 0 m) n) as [r|e];
        [discriminate | now exists e].
    + split.
      * rewrite !count_sends_app, count_sends_retry_trace, count_sends_last. lia.
      * rewrite !delays_app, delays_retry_trace. simpl. now rewrite app_nil_r.
  - intros attempts err Hpos Hfail.
    destruct attempts as [|k]; [lia|].
    replace (S k - 1) with k by lia.
    eexists. split.
    + apply (@loop_all_fail p n (S k) k 0 tr err); [lia|].
      intros m Hm. apply Hfail. lia.
    + split.
      * rewrite !count_sends_app, count_sends_retry_trace, count_sends_last. lia.
      * rewrite !delays_app, delays_retry_trace. simpl. now rewrite app_nil_r.
Qed.

Lemma sendWithRetry_linear_backoff_witness :
  sendWithRetry (flaky "mock" 2) sample 3 [] =
  (Return (Some (mkReceipt "mock" "delivered" "now")),
   [EvSend "mock" sample; EvDelay 1000; EvSend "mock" sample; EvDelay 2000;
    EvSend "mock" sample])
  /\ (exists tr',
        sendWithRetry (flaky "mock" 1) sample 3 [] =
        (Return (Some (mkReceipt "mock" "delivered" "now")), tr') /\
        count_sends "mock" tr' = 2 /\ delays tr' = [1000])
  /\ (exists tr',
        sendWithRetry (flaky "mock" 5) sample 3 [] =
        (Throw (ProviderError "temporary failure"), tr') /\
        count_sends "mock" tr' = 3 /\ delays tr' = [1000; 2000]).
Proof.
  split; [|split].
  - destruct (sendWithRetry_linear_backoff (flaky "mock" 2) sample []) as [H _].
    exact (H (ProviderError "temporary failure") (ProviderError "temporary failure")
             (mkReceipt "mock" "delivered" "now") eq_refl eq_refl eq_refl).
  - destruct (sendWithRetry_linear_backoff (flaky "mock" 1) sample [])
      as (_ & H & _).
    apply (H 3 1 (mkReceipt "mock" "delivered" "now")).
    + lia.
    + intros m Hm. destruct m as [|m]; [reflexivity | lia].
    + reflexivity.
  - destruct (sendWithRetry_linear_backoff (flaky "mock" 5) sample [])
      as (_ & _ & H).
    apply (H 3 (fun _ => ProviderError "temporary failure")).
    + lia.
    + intros m Hm. destruct m as [|[|[|m]]]; [reflexivity .. | lia].
Defined.

(** C4 as stated fails: on a provider that fails twice and then succeeds,
    [sendWithRetry] with three attempts waits 1000 ms and 2000 ms; no wait
    of three times the base delay takes place. *)
Lemma sendWithRetry_no_third_wait :
  call_outcome (flaky "mock" 2) sample [] 0 = Throw (ProviderError "temporary failure") /\
  call_outcome (flaky "mock" 2) sample [] 1 = Throw (ProviderError "temporary failure") /\
  call_outcome (flaky "mock" 2) sample [] 2 =
    Return (mkReceipt "mock" "delivered" "now") /\
  retryDelay (flaky "mock" 2) = 1000 /\
  delays (snd (sendWithRetry (flaky "mock" 2) sample 3 [])) = [1000; 2000] /\
  delays (snd (sendWithRetry (flaky "mock" 2) sample 3 [])) <>
    [1 * 1000; 2 * 1000; 3 * 1000].
Proof.
  repeat split; try reflexivity.
  intro H. apply (f_equal (@length nat)) in H. discriminate H.
Qed.

(** ** Failover *)

Lemma sent_by_incl (a b : list string) (ev : Event) :
  incl a b -> sent_by a ev -> sent_by b ev.
Proof. destruct ev; simpl; auto. Qed.

Lemma Forall_sent_by_incl (a b : list string) (delta : Trace) :
  incl a b -> Forall (sent_by a) delta -> Forall (sent_by b) delta.
Proof.
  intros Hab H. eapply Forall_impl; [|exact H].
  intros ev. now apply sent_by_incl.
Qed.

Lemma sendWithRetry_trace (p : Provider) (n : Notification) (attempts : nat)
    (tr : Trace) :
  exists delta,
    snd (sendWithRetry p n attempts tr) = tr ++ delta /\
    Forall (sent_by [name p]) delta.
Proof. apply loop_trace. Qed.

(** Providers that are all skipped or failing only add their own sends. *)
Lemma Exhausted_trace (n : Notification) (ps : list Provider) (tr tr' : Trace)
    (errs : list ErrorEntry) :
  Exhausted n ps tr errs tr' ->
  exists delta, tr' = tr ++ delta /\ Forall (sent_by (map getName ps)) delta.
Proof.
  induction 1 as [tr | p ps tr errs tr' Hen _ IH | p ps tr errs tr' Hen Hcan _ IH
                 | p ps tr e tr1 errs tr' Hen Hcan Hsend _ IH].
  - exists []. now rewrite app_nil_r.
  - destruct IH as (delta & -> & Hall). exists delta. split; [reflexivity|].
    eapply Forall_sent_by_incl; [|exact Hall]. apply incl_tl, incl_refl.
  - destruct IH as (delta & -> & Hall). exists delta. split; [reflexivity|].
    eapply Forall_sent_by_incl; [|exact Hall]. apply incl_tl, incl_refl.
  - destruct IH as (delta & -> & Hall).
    destruct (sendWithRetry_trace p n (retryAttempts p) tr) as (d1 & Hd1 & Hall1).
    rewrite Hsend in Hd1. simpl in Hd1. subst tr1.
    exists (d1 ++ delta). split; [now rewrite app_assoc|].
    apply Forall_app. split.
    + eapply Forall_sent_by_incl; [|exact Hall1].
      intros x [<-|[]]. now left.
    + eapply Forall_sent_by_incl; [|exact Hall]. apply incl_tl, incl_refl.
Qed.

Lemma count_sends_others (q : string) (names : list string) (delta : Trace) :
  Forall (sent_by names) delta -> ~ In q names -> count_sends q delta = 0.
Proof.
  intros Hall Hq. induction Hall as [|ev delta Hev _ IH]; [reflexivity|].
  unfold count_sends, count_if in *. simpl.
  destruct ev as [r m|ms]; simpl in *; [|exact IH].
  destruct (String.eqb_spec r q) as [->|_]; [contradiction | exact IH].
Qed.

(** Past providers that are skipped or fail, the failover loop goes on with
    the rest, their entries recorded. *)
Lemma failover_exhausted (providers : list Provider) (n : Notification)
    (pre : list Provider) (tr tr' : Trace) (errs : list ErrorEntry) :
  Exhausted n pre tr errs tr' ->
  forall rest errs0,
    failover providers n (pre ++ rest) errs0 tr =
    failover providers n rest (errs0 ++ errs) tr'.
Proof.
  induction 1 as [tr | p ps tr errs tr' Hen _ IH | p ps tr errs tr' Hen Hcan _ IH
                 | p ps tr e tr1 errs tr' Hen Hcan Hsend _ IH];
    intros rest errs0; simpl.
  - now rewrite app_nil_r.
  - rewrite Hen. simpl. rewrite IH. now rewrite <- app_assoc.
  - rewrite Hen, Hcan. simpl. rewrite IH. now rewrite <- app_assoc.
  - rewrite Hen, Hcan. simpl. unfold bind at 1, attempt at 1.
    rewrite Hsend. rewrite IH. now rewrite <- app_assoc.
Qed.

Lemma sendNotification_failover (providers : list Provider) (n : Notification)
    (options : Options) (tr : Trace) :
  providers <> [] ->
  requested_provider options = None ->
  sendNotification providers n options tr = failover providers n providers [] tr.
Proof.
  intros Hne Hreq. unfold sendNotification. rewrite Hreq.
  destruct providers; [contradiction | reflexivity].
Qed.

(** A failover run has a first provider that succeeds, or exhausts the
    list. *)
Lemma failover_cases (n : Notification) (ps : list Provider) :
  forall tr,
    (exists errs tr', Exhausted n ps tr errs tr') \/
    (exists pre p post errs tr1 result tr2,
        ps = pre ++ p :: post /\
        Exhausted n pre tr errs tr1 /\
        isEnabled p = true /\ canHandle p n = true /\
        sendWithRetry p n (retryAttempts p) tr1 = (Return result, tr2)).
Proof.
  induction ps as [|p ps IH]; intro tr.
  - left. exists [], tr. constructor.
  - destruct (isEnabled p) eqn:Hen.
    + destruct (canHandle p n) eqn:Hcan.
      * destruct (sendWithRetry p n (retryAttempts p) tr) as [[result|e] tr1] eqn:Hs.
        -- right. exists [], p, ps, [], tr, result, tr1.
           repeat split; try assumption. constructor.
        -- destruct (IH tr1) as [(errs & tr' & Hex)
                                |(pre & q & post & errs & t1 & r & t2 & -> & Hex & H)].
           ++ left. eexists. exists tr'. eapply Exhausted_failed; eassumption.
           ++ right. exists (p :: pre), q, post. eexists. exists t1, r, t2.
              split; [reflexivity|]. split; [|exact H].
              eapply Exhausted_failed; eassumption.
      * destruct (IH tr) as [(errs & tr' & Hex)
                            |(pre & q & post & errs & t1 & r & t2 & -> & Hex & H)].
        -- left. eexists. exists tr'. eapply Exhausted_unsupported; eassumption.
        -- right. exists (p :: pre), q, post. eexists. exists t1, r, t2.
           split; [reflexivity|]. split; [|exact H].
           eapply Exhausted_unsupported; eassumption.
    + destruct (IH tr) as [(errs & tr' & Hex)
                          |(pre & q & post & errs & t1 & r & t2 & -> & Hex & H)].
      * left. eexists. exists tr'. eapply Exhausted_disabled; eassumption.
      * right. exists (p :: pre), q, post. eexists. exists t1, r, t2.
        split; [reflexivity|]. split; [|exact H].
        eapply Exhausted_disabled; eassumption.
Qed.

(** C1: on the failover path (no provider named in the options), when the
    providers before [p] in priority order are each skipped or fail, and [p]
    is enabled, can handle the notification and succeeds, the dispatch
    returns success at once with [usedProvider] the name of [p], on the
    trace [p]'s successful [sendWithRetry] left; the providers after [p]
    have no influence on the effects, and the [send] of a provider after [p]
    (told apart by its name) is not called. *)
Theorem failover_stops_at_first_success :
  forall (pre post : list Provider) (p : Provider) (n : Notification)
         (options : Options) (tr tr1 tr2 : Trace) (errs : list ErrorEntry)
         (result : option Receipt),
    requested_provider options = None ->
    Exhausted n pre tr errs tr1 ->
    isEnabled p = true ->
    canHandle p n = true ->
    sendWithRetry p n (retryAttempts p) tr1 = (Return result, tr2) ->
    exists r,
      sendNotification (pre ++ p :: post) n options tr = (Return r, tr2) /\
      success r = true /\
      usedProvider r = Some (getName p) /\
      results r = [result] /\
      successfulProviders r = 1 /\
      snd (sendNotification (pre ++ [p]) n options tr) = tr2 /\
      (forall q, In q post ->
                 ~ In (getName q) (map getName (pre ++ [p])) ->
                 count_sends (getName q) tr2 = count_sends (getName q) tr).
Proof.
  intros pre post p n options tr tr1 tr2 errs result Hreq Hpre Hen Hcan Hsend.
  assert (Hrun : forall rest,
             failover (pre ++ p :: rest) n (pre ++ p :: rest) [] tr =
             (Return (mkDispatchResult true [result]
                        (if Nat.ltb 0 (length errs) then Some errs else None)
                        (count_if (fun q => canHandle q n) (pre ++ p :: rest))
                        1
                        (count_if (fun e => negb (err_skipped e)) errs)
                        (Some (count_if err_skipped errs))
                        (Some (getName p))),
              tr2)).
  { intro rest. rewrite (failover_exhausted _ Hpre). simpl.
    rewrite Hen, Hcan. simpl. unfold bind, attempt. rewrite Hsend. reflexivity. }
  eexists. split; [|split; [|split; [|split; [|split; [|split]]]]].
  - rewrite sendNotification_failover; [apply Hrun | | exact Hreq].
    now destruct pre.
  - reflexivity.
  - reflexivity.
  - reflexivity.
  - reflexivity.
  - rewrite sendNotification_failover; [now rewrite Hrun | | exact Hreq].
    now destruct pre.
  - intros q _ Hq.
    destruct (Exhausted_trace Hpre) as (d1 & -> & Hall1).
    destruct (sendWithRetry_trace p n (retryAttempts p) (tr ++ d1))
      as (d2 & Hd2 & Hall2).
    rewrite Hsend in Hd2. simpl in Hd2. subst tr2.
    rewrite !count_sends_app.
    rewrite (@count_sends_others (getName q) (map getName (pre ++ [p])) d1),
            (@count_sends_others (getName q) (map getName (pre ++ [p])) d2);
      [lia | | exact Hq | | exact Hq].
    + eapply Forall_sent_by_incl; [|exact Hall2].
      intros x [<-|[]]. rewrite map_app. apply in_or_app. right. now left.
    + eapply Forall_sent_by_incl; [|exact Hall1].
      rewrite map_app. apply incl_appl, incl_refl.
Qed.

Lemma failover_stops_at_first_success_witness :
  exists r tr2,
    sendNotification
      ([set_enabled (PusherProvider true ok_transport) false;
        FirebaseProvider true true true ok_transport;
        flaky "A" 5]
       ++ flaky "B" 1 :: [flaky "C" 0])
      sample no_options [] = (Return r, tr2) /\
    usedProvider r = Some "B" /\
    count_sends "B" tr2 = 2 /\
    count_sends "C" tr2 = 0.
Proof.
  destruct (@failover_stops_at_first_success
              [set_enabled (PusherProvider true ok_transport) false;
               FirebaseProvider true true true ok_transport;
               flaky "A" 5]
              [flaky "C" 0] (flaky "B" 1) sample no_options []
              [EvSend "A" sample; EvDelay 1000; EvSend "A" sample; EvDelay 2000;
               EvSend "A" sample]
              [EvSend "A" sample; EvDelay 1000; EvSend "A" sample; EvDelay 2000;
               EvSend "A" sample; EvSend "B" sample; EvDelay 1000;
               EvSend "B" sample]
              [mkErrorEntry "Pusher" "Provider is disabled" true;
               mkErrorEntry "Firebase"
                 "Provider cannot handle this notification type" true;
               mkErrorEntry "A" "temporary failure" false]
              (Some (mkReceipt "B" "delivered" "now")))
    as (r & Hr & _ & Hused & _ & _ & _ & Hcount).
  - reflexivity.
  - apply Exhausted_disabled; [reflexivity|].
    apply Exhausted_unsupported; [reflexivity | reflexivity |].
    apply (@Exhausted_failed sample (flaky "A" 5) [] []
             (ProviderError "temporary failure")
             [EvSend "A" sample; EvDelay 1000; EvSend "A" sample; EvDelay 2000;
              EvSend "A" sample]);
      [reflexivity | reflexivity | reflexivity | apply Exhausted_nil].
  - reflexivity.
  - reflexivity.
  - reflexivity.
  - exists r. eexists. split; [exact Hr|]. split; [exact Hused|].
    split; [reflexivity|].
    refine (Hcount (flaky "C" 0) _ _); [now left|].
    simpl. intros [H|[H|[H|[H|[]]]]]; discriminate H.
Defined.

(** What [Exhausted] records: one entry per provider, in order, flagged as
    skipped exactly for the providers that are not eligible. *)
Lemma Exhausted_entries (n : Notification) (ps : list Provider) (tr tr' : Trace)
    (errs : list ErrorEntry) :
  Exhausted n ps tr errs tr' ->
  length errs = length ps /\
  map err_provider errs = map getName ps /\
  count_if (fun e => negb (err_skipped e)) errs = count_if (eligible n) ps /\
  count_if err_skipped errs = count_if (fun p => negb (eligible n p)) ps.
Proof.
  unfold count_if, eligible.
  induction 1 as [tr | p ps tr errs tr' Hen _ IH | p ps tr errs tr' Hen Hcan _ IH
                 | p ps tr e tr1 errs tr' Hen Hcan Hsend _ IH];
    [repeat split | destruct IH as (IH1 & IH2 & IH3 & IH4) ..];
    simpl; try rewrite Hen; try rewrite Hcan; simpl;
    rewrite IH1, IH2, IH3, IH4; repeat split.
Qed.

(** C3 (as amended): on the failover path over a non-empty provider list in
    which every eligible provider's [sendWithRetry] fails, the dispatch
    fails with the all-providers-failed error; the entries this error
    aggregates are one per provider of the list, in order, skipped providers
    included; the entries not flagged as skipped are as many as the eligible
    providers and the entries flagged as skipped as many as the others, so a
    skipped provider is never counted as failed. *)
Theorem all_providers_failed_aggregate :
  forall (providers : list Provider) (n : Notification) (options : Options)
         (tr tr' : Trace) (errs : list ErrorEntry),
    providers <> [] ->
    requested_provider options = None ->
    Exhausted n providers tr errs tr' ->
    sendNotification providers n options tr = (Throw (AllProvidersFailed errs), tr') /\
    length errs = length providers /\
    map err_provider errs = map getName providers /\
    count_if (fun e => negb (err_skipped e)) errs = count_if (eligible n) providers /\
    count_if err_skipped errs = count_if (fun p => negb (eligible n p)) providers.
Proof.
  intros providers n options tr tr' errs Hne Hreq Hex.
  split; [|now apply (@Exhausted_entries n providers tr tr')].
  rewrite sendNotification_failover; [|exact Hne | exact Hreq].
  rewrite <- (app_nil_r providers) at 2.
  rewrite (failover_exhausted _ Hex). reflexivity.
Qed.

Lemma all_providers_failed_aggregate_witness :
  sendNotification
    [set_enabled (PusherProvider true ok_transport) false;
     OneSignalProvider true down_transport]
    sample no_options [] =
  (Throw (AllProvidersFailed
            [mkErrorEntry "Pusher" "Provider is disabled" true;
             mkErrorEntry "OneSignal" "OneSignal send failed: connection refused"
               false]),
   [EvSend "OneSignal" sample; EvDelay 1000; EvSend "OneSignal" sample;
    EvDelay 2000; EvSend "OneSignal" sample]).
Proof.
  apply all_providers_failed_aggregate.
  - discriminate.
  - reflexivity.
  - apply Exhausted_disabled; [reflexivity|].
    apply (@Exhausted_failed sample (OneSignalProvider true down_transport) [] []
             (ProviderError "OneSignal send failed: connection refused")
             [EvSend "OneSignal" sample; EvDelay 1000; EvSend "OneSignal" sample;
              EvDelay 2000; EvSend "OneSignal" sample]);
      [reflexivity | reflexivity | reflexivity | apply Exhausted_nil].
Defined.

(** C3 as stated fails: with a disabled provider before a failing one, the
    error aggregates two entries while one provider only is eligible. *)
Lemma all_providers_failed_counts_skipped :
  let providers :=
    [set_enabled (PusherProvider true ok_transport) false;
     OneSignalProvider true down_transport] in
  exists errs,
    fst (sendNotification providers sample no_options []) =
      Throw (AllProvidersFailed errs) /\
    length errs = 2 /\
    count_if (eligible sample) providers = 1 /\
    length errs <> count_if (eligible sample) providers.
Proof.
  simpl. eexists. split; [reflexivity|].
  repeat split. discriminate.
Qed.

(** ** Explicit provider *)

Lemma find_provider_absent (providers : list Provider) (requested : string) :
  (forall p, In p providers -> ~ same_name requested p) ->
  find_provider providers requested = None.
Proof.
  unfold find_provider, same_name.
  induction providers as [|q ps IH]; intro Habs; [reflexivity|].
  simpl. destruct (String.eqb_spec (Js.toLowerCase (getName q))
                     (Js.toLowerCase requested)) as [Heq|_].
  - exfalso. apply (Habs q); [now left | exact Heq].
  - apply IH. intros p Hp. apply Habs. now right.
Qed.

Lemma find_provider_first (pre post : list Provider) (p : Provider)
    (requested : string) :
  (forall q, In q pre -> ~ same_name requested q) ->
  same_name requested p ->
  find_provider (pre ++ p :: post) requested = Some p.
Proof.
  unfold find_provider, same_name.
  induction pre as [|q ps IH]; intros Habs Hp; simpl.
  - rewrite Hp. now rewrite String.eqb_refl.
  - destruct (String.eqb_spec (Js.toLowerCase (getName q))
                (Js.toLowerCase requested)) as [Heq|_].
    + exfalso. apply (Habs q); [now left | exact Heq].
    + apply IH; [|exact Hp]. intros r Hr. apply Habs. now right.
Qed.

Lemma requested_provider_set (options : Options) (requested : string) :
  opt_provider options = Some requested ->
  Js.truthy requested = true ->
  requested_provider options = Some requested.
Proof. unfold requested_provider. intros -> ->. reflexivity. Qed.

(** The explicit path as the code has it: with [options.provider] set, an
    empty provider list gives the no-providers-available error; otherwise the
    named provider is looked up by its lower-cased name, an absent name gives
    the provider-not-found error without any [send], and the first provider
    bearing the name is handed to [sendWithRetry], whatever its [enabled]
    flag says, a failure being rethrown under the requested name. *)
Lemma explicit_provider_path :
  forall (providers : list Provider) (n : Notification) (options : Options)
         (requested : string) (tr : Trace),
    opt_provider options = Some requested ->
    Js.truthy requested = true ->
    (providers = [] ->
     sendNotification providers n options tr = (Throw NoProvidersAvailable, tr))
    /\
    (providers <> [] ->
     (forall p, In p providers -> ~ same_name requested p) ->
     sendNotification providers n options tr =
     (Throw (ProviderNotFound requested), tr))
    /\
    (forall pre p post,
        providers = pre ++ p :: post ->
        (forall q, In q pre -> ~ same_name requested q) ->
        same_name requested p ->
        sendNotification providers n options tr =
        match sendWithRetry p n (retryAttempts p) tr with
        | (Return result, tr') =>
            (Return (mkDispatchResult true [result] None 1 1 0 None None), tr')
        | (Throw error, tr') =>
            (Throw (FailedToSendVia requested (message error)), tr')
        end).
Proof.
  intros providers n options requested tr Hopt Htruthy.
  pose proof (requested_provider_set options Hopt Htruthy) as Hreq.
  split; [|split].
  - intros ->. reflexivity.
  - intros Hne Habs. unfold sendNotification.
    replace (Nat.eqb (length providers) 0) with false
      by (now destruct providers).
    rewrite Hreq, (find_provider_absent _ Habs). reflexivity.
  - intros pre p post -> Habs Hp. unfold sendNotification.
    replace (Nat.eqb (length (pre ++ p :: post)) 0) with false
      by (now destruct pre).
    rewrite Hreq, (find_provider_first _ _ Habs Hp).
    unfold bind, attempt.
    destruct (sendWithRetry p n (retryAttempts p) tr) as [[result|error] tr'];
      reflexivity.
Qed.

Lemma explicit_provider_path_examples :
  sendNotification [] sample (via "pusher") [] = (Throw NoProvidersAvailable, [])
  /\
  sendNotification [OneSignalProvider true ok_transport] sample (via "pusher") [] =
    (Throw (ProviderNotFound "pusher"), [])
  /\
  sendNotification
    [OneSignalProvider true ok_transport; PusherProvider true down_transport;
     FirebaseProvider true true true ok_transport]
    sample (via "PUSHER") [] =
    (Throw (FailedToSendVia "PUSHER" "Pusher send failed: connection refused"),
     [EvSend "Pusher" sample; EvDelay 1000; EvSend "Pusher" sample; EvDelay 2000;
      EvSend "Pusher" sample]).
Proof.
  split; [|split].
  - now apply (@explicit_provider_path [] sample (via "pusher") "pusher" []).
  - apply (@explicit_provider_path [OneSignalProvider true ok_transport]
             sample (via "pusher") "pusher" []);
      [reflexivity | reflexivity | discriminate |].
    intros p [<-|[]]. unfold same_name. simpl. discriminate.
  - destruct (@explicit_provider_path
                [OneSignalProvider true ok_transport;
                 PusherProvider true down_transport;
                 FirebaseProvider true true true ok_transport]
                sample (via "PUSHER") "PUSHER" [] eq_refl eq_refl)
      as (_ & _ & H).
    apply (H [OneSignalProvider true ok_transport]
             (PusherProvider true down_transport)
             [FirebaseProvider true true true ok_transport]);
      [reflexivity | | reflexivity].
    intros q [<-|[]]. unfold same_name. simpl. discriminate.
Defined.

(** With no provider configured, a dispatch that names a provider fails with
    the no-providers-available error before the name is looked at. *)
Lemma explicit_provider_on_empty_list :
  sendNotification [] sample (via "pusher") [] = (Throw NoProvidersAvailable, []) /\
  NoProvidersAvailable <> ProviderNotFound "pusher" /\
  message NoProvidersAvailable = "No notification providers available" /\
  message (ProviderNotFound "pusher") = "Provider pusher not found or not enabled".
Proof. repeat split. discriminate. Qed.

(** C2, evaluated at the failing input: a dispatch that names a provider
    which is registered but disabled.  The Pusher provider is constructed
    enabled and then switched off by [updateProviderStatus], so it stays in the
    list with [isEnabled() = false]; a dispatch with [options.provider =
    'pusher'] does not fail with the provider-not-found error: the lookup
    never asks [isEnabled], [send] is called three times, with the waits of
    [sendWithRetry] in between, and the error that comes out is the
    failed-to-send-via one.  On the same list the failover path skips the
    provider as disabled and makes no [send]; an absent name, on the same
    list, does give the provider-not-found error, whose message reads
    [not found or not enabled]. *)
Theorem explicit_path_ignores_enabled_flag :
  let providers :=
    snd (updateProviderStatus [PusherProvider true ok_transport] "pusher" false) in
  map isEnabled providers = [false] /\
  sendNotification providers sample (via "pusher") [] =
    (Throw (FailedToSendVia "pusher" "Pusher provider is not available"),
     [EvSend "Pusher" sample; EvDelay 1000; EvSend "Pusher" sample; EvDelay 2000;
      EvSend "Pusher" sample]) /\
  sendNotification providers sample no_options [] =
    (Throw (AllProvidersFailed [mkErrorEntry "Pusher" "Provider is disabled" true]),
     []) /\
  sendNotification providers sample (via "onesignal") [] =
    (Throw (ProviderNotFound "onesignal"), []) /\
  message (ProviderNotFound "pusher") = "Provider pusher not found or not enabled" /\
  message (FailedToSendVia "pusher" "Pusher provider is not available") =
    "Failed to send via pusher: Pusher provider is not available".
Proof. repeat split. Qed.

(** ** Bulk dispatch *)

Lemma Dispatched_total (providers : list Provider) (options : Options)
    (ns : list Notification) :
  forall tr, exists outs tr', Dispatched providers options ns tr outs tr'.
Proof.
  induction ns as [|n ns IH]; intro tr.
  - exists [], tr. constructor.
  - destruct (sendNotification providers n options tr) as [o tr1] eqn:Hn.
    destruct (IH tr1) as (outs & tr' & Hrest).
    exists (o :: outs), tr'. econstructor; eassumption.
Qed.

Lemma Dispatched_length (providers : list Provider) (options : Options)
    (ns : list Notification) (tr tr' : Trace) (outs : list (Outcome DispatchResult)) :
  Dispatched providers options ns tr outs tr' -> length outs = length ns.
Proof. induction 1; simpl; congruence. Qed.

(** The loop of the bulk dispatch never throws: it records each outcome and
    goes on. *)
Lemma bulk_loop_spec (providers : list Provider) (options : Options)
    (notifications todo : list Notification) (tr tr' : Trace)
    (outs : list (Outcome DispatchResult)) :
  Dispatched providers options todo tr outs tr' ->
  forall i results s f,
    bulk_loop providers options notifications todo i results s f tr =
    (Return (mkBulkSummary (length notifications)
               (s + count_if is_return outs)
               (f + count_if is_throw outs)
               (results ++ bulk_items i todo outs)),
     tr').
Proof.
  induction 1 as [tr | n ns tr o tr1 outs tr' Hn _ IH]; intros i results s f.
  - simpl. unfold ret, count_if. simpl.
    now rewrite !Nat.add_0_r, app_nil_r.
  - cbn [bulk_loop]. unfold bind at 1, attempt at 1. rewrite Hn.
    destruct o as [result|error]; rewrite IH; unfold count_if; simpl;
      rewrite <- app_assoc; simpl; repeat f_equal; lia.
Qed.

Lemma bulk_items_index (outs : list (Outcome DispatchResult)) :
  forall ns i, length outs = length ns ->
               map item_index (bulk_items i ns outs) = seq i (length ns).
Proof.
  induction outs as [|o outs IH]; intros [|n ns] i Hlen; try discriminate;
    [reflexivity|].
  simpl. rewrite IH by (simpl in Hlen; lia).
  now destruct o.
Qed.

Lemma bulk_items_success (outs : list (Outcome DispatchResult)) :
  forall ns i, length outs = length ns ->
               map item_success (bulk_items i ns outs) = map is_return outs.
Proof.
  induction outs as [|o outs IH]; intros [|n ns] i Hlen; try discriminate;
    [reflexivity|].
  simpl. rewrite IH by (simpl in Hlen; lia).
  now destruct o.
Qed.

Lemma count_return_throw (A : Type) (outs : list (Outcome A)) :
  count_if is_return outs + count_if is_throw outs = length outs.
Proof.
  unfold count_if, is_throw.
  induction outs as [|[a|e] outs IH]; simpl; lia.
Qed.

Lemma count_all_return (A : Type) (outs : list (Outcome A)) :
  forallb is_return outs = true ->
  count_if is_return outs = length outs /\ count_if is_throw outs = 0.
Proof.
  unfold count_if, is_throw.
  induction outs as [|[a|e] outs IH]; simpl; intro H; try discriminate.
  - split; reflexivity.
  - destruct (IH H). split; lia.
Qed.

Lemma count_if_app (A : Type) (f : A -> bool) (a b : list A) :
  count_if f (a ++ b) = count_if f a + count_if f b.
Proof. unfold count_if. now rewrite filter_app, length_app. Qed.

(** C7: [sendBulkNotifications] over [N] notifications dispatches them one
    at a time in their order, each from the trace the one before left; it
    never throws, whatever the items' outcomes; it returns [total = N], as
    [successful] and [failed] the numbers of items that succeeded and failed,
    and one result per item, in order, carrying the item's position and
    outcome.  When exactly one item fails and all the others succeed, it
    returns [successful = N - 1] and [failed = 1]. *)
Theorem bulk_isolates_failures :
  forall (providers : list Provider) (notifications : list Notification)
         (options : Options) (tr : Trace),
  exists outs tr' summary,
    Dispatched providers options notifications tr outs tr' /\
    sendBulkNotifications providers notifications options tr = (Return summary, tr') /\
    total summary = length notifications /\
    successful summary = count_if is_return outs /\
    failed summary = count_if is_throw outs /\
    successful summary + failed summary = length notifications /\
    bulk_results summary = bulk_items 0 notifications outs /\
    map item_index (bulk_results summary) = seq 0 (length notifications) /\
    map item_success (bulk_results summary) = map is_return outs /\
    (forall pre e post,
        outs = pre ++ Throw e :: post ->
        forallb is_return pre = true ->
        forallb is_return post = true ->
        successful summary = length notifications - 1 /\
        failed summary = 1 /\
        option_map item_success (nth_error (bulk_results summary) (length pre)) =
          Some false).
Proof.
  intros providers notifications options tr.
  destruct (Dispatched_total providers options notifications tr)
    as (outs & tr' & Hd).
  pose proof (Dispatched_length Hd) as Hlen.
  exists outs, tr'. eexists. split; [exact Hd|]. split.
  - unfold sendBulkNotifications. apply (bulk_loop_spec _ Hd).
  - simpl.
    split; [reflexivity|]. split; [reflexivity|]. split; [reflexivity|].
    split; [rewrite count_return_throw; exact Hlen|].
    split; [reflexivity|].
    split; [now apply bulk_items_index|].
    split; [now apply bulk_items_success|].
    intros pre e post Hout Hpre Hpost.
    destruct (count_all_return pre Hpre) as [Hpre1 Hpre2].
    destruct (count_all_return post Hpost) as [Hpost1 Hpost2].
    assert (Hret : count_if is_return outs = length pre + length post).
    { subst outs. rewrite count_if_app, Hpre1.
      change (Throw e :: post) with ([Throw e] ++ post).
      rewrite count_if_app, Hpost1. reflexivity. }
    assert (Hthr : count_if is_throw outs = 1).
    { subst outs. rewrite count_if_app, Hpre2.
      change (Throw e :: post) with ([Throw e] ++ post).
      rewrite count_if_app, Hpost2. reflexivity. }
    split; [|split].
    + rewrite Hret, <- Hlen. subst outs. rewrite length_app. simpl. lia.
    + exact Hthr.
    + rewrite <- nth_error_map.
      rewrite bulk_items_success by exact Hlen.
      subst outs. rewrite map_app, nth_error_app2; rewrite length_map; [|lia].
      now rewrite Nat.sub_diag.
Qed.

Lemma bulk_isolates_failures_witness :
  exists summary tr',
    sendBulkNotifications [flaky "mock" 4] [sample; sample; sample] no_options [] =
      (Return summary, tr') /\
    total summary = 3 /\
    successful summary = 2 /\
    failed summary = 1 /\
    map item_index (bulk_results summary) = [0; 1; 2] /\
    map item_success (bulk_results summary) = [false; true; true].
Proof.
  destruct (bulk_isolates_failures [flaky "mock" 4] [sample; sample; sample]
              no_options [])
    as (outs & tr' & summary & Hd & Hrun & Htotal & _ & _ & _ & _ & Hidx & Hsucc & Hone).
  inversion Hd as [|n1 ns1 t0 o1 t1 outs1 t1' H1 Hd1]; subst.
  inversion Hd1 as [|n2 ns2 t0 o2 t2 outs2 t2' H2 Hd2]; subst.
  inversion Hd2 as [|n3 ns3 t0 o3 t3 outs3 t3' H3 Hd3]; subst.
  inversion Hd3; subst.
  vm_compute in H1. injection H1 as <- <-.
  vm_compute in H2. injection H2 as <- <-.
  vm_compute in H3. injection H3 as <- <-.
  destruct (Hone [] _ _ eq_refl eq_refl eq_refl) as (Hs & Hf & _).
  exists summary. eexists.
  split; [exact Hrun|]. split; [exact Htotal|]. split; [exact Hs|].
  split; [exact Hf|]. split; [exact Hidx | exact Hsucc].
Defined.

(** ** Compatibility check *)

Lemma validate_loop_spec (n : Notification) (todo : list Provider) :
  forall v,
    validate_loop todo n v =
    mkValidation
      (valid v ||
       existsb (fun p => isEnabled p && passes n p && canHandle p n) todo)
      (providers_report v ++ map (report_of n) (filter isEnabled todo))
      (validation_errors v ++
       flat_map (validation_error_of n) (filter isEnabled todo)).
Proof.
  induction todo as [|p ps IH]; intro v.
  - simpl. rewrite orb_false_r, !app_nil_r. now destruct v.
  - simpl. destruct (isEnabled p); simpl; [|apply IH].
    unfold passes, report_of, validation_error_of.
    destruct (validateNotification p n) as [b|e]; rewrite IH; simpl.
    + rewrite <- app_assoc. simpl.
      destruct (canHandle p n), (valid v); reflexivity.
    + rewrite <- !app_assoc. reflexivity.
Qed.

(** C9 (as amended): [validateNotificationForProviders] performs no [send]
    (it leaves the trace as it is); it reports, for each enabled provider in
    order (a disabled provider gets no report), whether the notification
    passes the provider's validation and, when it does, whether the provider
    can handle it (when it does not, the report says not handleable); and
    its overall [valid] flag is true if and only if at least one enabled
    provider both validates the notification and can handle it. *)
Theorem compatibility_check :
  forall (providers : list Provider) (n : Notification) (tr : Trace),
  exists v,
    validateNotificationForProviders providers n tr = (Return v, tr) /\
    providers_report v = map (report_of n) (filter isEnabled providers) /\
    (valid v = true <->
     exists p, In p providers /\ isEnabled p = true /\ passes n p = true /\
               canHandle p n = true).
Proof.
  intros providers n tr. eexists. split; [reflexivity|].
  rewrite validate_loop_spec. simpl. split; [reflexivity|].
  rewrite existsb_exists. split.
  - intros (p & Hin & Hp).
    apply andb_prop in Hp as [Hp Hcan]. apply andb_prop in Hp as [Hen Hpass].
    now exists p.
  - intros (p & Hin & Hen & Hpass & Hcan). exists p.
    now rewrite Hen, Hpass, Hcan.
Qed.

(** C9 as stated fails: on a notification with neither title nor body, an
    enabled provider that can handle every notification does not make the
    overall flag true, and is reported as unable to handle it; the disabled
    provider before it gets no report. *)
Lemma compatibility_check_needs_validation :
  let firebase := FirebaseProvider true true false ok_transport in
  let pusher := PusherProvider true ok_transport in
  isEnabled firebase = false /\
  isEnabled pusher = true /\
  canHandle pusher blank = true /\
  validateNotificationForProviders [firebase; pusher] blank [] =
    (Return
       (mkValidation false
          [mkProviderReport "Pusher" false false
             (Some "Notification must have either title or body")]
          [mkValidationError "Pusher"
             "Notification must have either title or body"]),
     []).
Proof. repeat split. Qed.

(** ** The job registry *)

Lemma map_get_set (k : string) (v : Job) (m : JobMap) :
  map_get k (map_set k v m) = Some v.
Proof.
  induction m as [|[k' v'] m IH]; simpl.
  - now rewrite String.eqb_refl.
  - destruct (String.eqb k k') eqn:E; simpl.
    + now rewrite String.eqb_refl.
    + now rewrite E.
Qed.

Lemma In_map_set (k k' : string) (v v' : Job) (m : JobMap) :
  In (k', v') (map_set k v m) -> (k', v') = (k, v) \/ In (k', v') m.
Proof.
  induction m as [|[k0 v0] m IH]; simpl.
  - intros [H|[]]; auto.
  - destruct (String.eqb k k0); simpl; intros [H|H]; auto.
    destruct (IH H); auto.
Qed.

Lemma map_get_In (k : string) (v : Job) (m : JobMap) :
  map_get k m = Some v -> In (k, v) m.
Proof.
  induction m as [|[k' v'] m IH]; simpl; [discriminate|].
  destruct (String.eqb_spec k k') as [->|_].
  - intros [= ->]. now left.
  - intro H. right. now apply IH.
Qed.

Lemma In_map_delete (k k' : string) (v' : Job) (m : JobMap) :
  In (k', v') (map_delete k m) -> k' <> k /\ In (k', v') m.
Proof.
  unfold map_delete. rewrite filter_In. simpl. intros [Hin Hneq].
  split; [|exact Hin]. intros ->. now rewrite String.eqb_refl in Hneq.
Qed.

Lemma map_get_delete (k : string) (m : JobMap) :
  map_get k (map_delete k m) = None.
Proof.
  induction m as [|[k' v'] m IH]; simpl; [reflexivity|].
  destruct (String.eqb k k') eqn:E; simpl; [exact IH|].
  now rewrite E.
Qed.


(** ** Schedule validation *)

(** C5, evaluated at the failing input: on a running scheduler,
    [scheduleNotification] accepts the frequency ['weekly'], which
    [validateSchedule] rejects, and registers a job for it; the job is not
    removed when it fires. *)
Theorem schedule_unknown_frequency_registered :
  let env := sample_env in
  let schedule := at_time "09:00" "weekly" in
  validateSchedule env (Some schedule) = Throw InvalidFrequency /\
  exists res s',
    scheduleNotification env sample schedule no_options (start new_scheduler) =
      (Return res, s') /\
    sr_frequency res = "weekly" /\
    map view_id (getActiveJobs env s') = [sr_jobId res] /\
    exists s'' tr,
      fire [PusherProvider true ok_transport] (sr_jobId res) s' [] = (Return s'', tr) /\
      map view_id (getActiveJobs env s'') = [sr_jobId res].
Proof.
  simpl. split; [reflexivity|].
  eexists. eexists. split; [reflexivity|]. split; [reflexivity|].
  split; [reflexivity|].
  eexists. eexists. split; reflexivity.
Qed.




(** ** Job lifecycle *)

Lemma well_formed_new : well_formed new_scheduler.
Proof. intros jobId job []. Qed.

Lemma well_formed_removeJob (jobId : string) (s : SchedulerService) :
  well_formed s -> well_formed (snd (removeJob jobId s)).
Proof.
  intro Hwf. unfold removeJob.
  destruct (map_get jobId (jobs s)); [|exact Hwf].
  intros k job Hin. simpl in Hin. apply In_map_delete in Hin as [_ Hin].
  now apply Hwf.
Qed.

Lemma well_formed_schedule (env : Env) (n : Notification) (schedule : Schedule)
    (options : Options) (s : SchedulerService) :
  well_formed s ->
  well_formed (snd (scheduleNotification env n schedule options s)).
Proof.
  intro Hwf. unfold scheduleNotification.
  destruct (running s); simpl; [|exact Hwf].
  destruct (sch_time schedule) as [time|]; [|exact Hwf].
  destruct (negb (Js.truthy time) || negb (Regex.test time_pattern time));
    [exact Hwf|].
  destruct (trigger_rule env _ _ _ _) as [cronExpression scheduledFor].
  unfold cron_schedule.
  destruct (env_cron_rejects env _ _) as [msg|]; [exact Hwf|].
  intros k job Hin. simpl in Hin. apply In_map_set in Hin as [[= -> ->]|Hin].
  - repeat split.
  - now apply Hwf.
Qed.

Lemma run_callback_returns (providers : list Provider) (cb : Callback)
    (s : SchedulerService) (tr : Trace) :
  exists s',
    run_callback providers cb s tr =
      (Return s',
       snd (sendNotification providers (cb_notification cb) (cb_options cb) tr)) /\
    s' = if String.eqb (cb_frequency cb) "once"
         then snd (removeJob (cb_jobId cb) s) else s.
Proof.
  unfold run_callback, bind, attempt, ret.
  destruct (sendNotification providers (cb_notification cb) (cb_options cb) tr)
    as [[r|e] tr'];
    destruct (String.eqb (cb_frequency cb) "once"); eexists; split; reflexivity.
Qed.

(** Every operation returns, and keeps the registry coherent. *)
Lemma step_well_formed (providers : list Provider) (op : Op)
    (s : SchedulerService) (tr : Trace) :
  well_formed s ->
  exists s' tr', step providers op s tr = (Return s', tr') /\ well_formed s'.
Proof.
  intro Hwf. destruct op as [| |env n schedule options|jobId|jobId|cb]; simpl.
  - exists (start s), tr. split; [reflexivity | exact Hwf].
  - exists (stop s), tr. split; [reflexivity | apply well_formed_new].
  - eexists. exists tr. split; [reflexivity | now apply well_formed_schedule].
  - eexists. exists tr. split; [reflexivity | now apply well_formed_removeJob].
  - unfold fire. destruct (map_get jobId (jobs s)) as [job|].
    + destruct (task_started (job_task job)).
      * destruct (run_callback_returns providers (task_callback (job_task job)) s tr)
          as (s' & Hrun & ->).
        eexists. eexists. split; [exact Hrun|].
        destruct (String.eqb _ _); [now apply well_formed_removeJob | exact Hwf].
      * exists s, tr. split; [reflexivity | exact Hwf].
    + exists s, tr. split; [reflexivity | exact Hwf].
  - destruct (run_callback_returns providers cb s tr) as (s' & Hrun & ->).
    eexists. eexists. split; [exact Hrun|].
    destruct (String.eqb _ _); [now apply well_formed_removeJob | exact Hwf].
Qed.

Lemma steps_well_formed (providers : list Provider) (ops : list Op) :
  forall s tr,
    well_formed s ->
    exists s' tr', steps providers ops s tr = (Return s', tr') /\ well_formed s'.
Proof.
  induction ops as [|op ops IH]; intros s tr Hwf.
  - exists s, tr. split; [reflexivity | exact Hwf].
  - destruct (step_well_formed providers op tr Hwf) as (s1 & tr1 & Hstep & Hwf1).
    destruct (IH s1 tr1 Hwf1) as (s' & tr' & Hsteps & Hwf').
    exists s', tr'. split; [|exact Hwf'].
    simpl. unfold bind. now rewrite Hstep.
Qed.

Lemma active_ids (env : Env) (s : SchedulerService) :
  map view_id (getActiveJobs env s) = map (fun kv => job_id (snd kv)) (jobs s).
Proof.
  unfold getActiveJobs, map_values. rewrite !map_map. reflexivity.
Qed.

(** C8: when the trigger of a registered job fires, the notification is
    dispatched; whatever the outcome of the dispatch, a job whose frequency
    is ['once'] is then no longer in the registry, neither for [getJob] nor
    in [getActiveJobs], while a job whose frequency is ['daily'] is still
    registered, unchanged, and listed by [getActiveJobs]. *)
Theorem once_job_removed_daily_job_kept :
  forall (providers : list Provider) (env : Env) (s : SchedulerService)
         (jobId : string) (job : Job) (tr : Trace),
    well_formed s ->
    map_get jobId (jobs s) = Some job ->
    task_started (job_task job) = true ->
    exists s' outcome tr',
      sendNotification providers (cb_notification (task_callback (job_task job)))
        (cb_options (task_callback (job_task job))) tr = (outcome, tr') /\
      fire providers jobId s tr = (Return s', tr') /\
      (js_frequency (job_schedule job) = "once" ->
       getJob env jobId s' = None /\
       ~ In jobId (map view_id (getActiveJobs env s'))) /\
      (js_frequency (job_schedule job) = "daily" ->
       s' = s /\
       getJob env jobId s' = Some (job_view env job) /\
       In jobId (map view_id (getActiveJobs env s'))).
Proof.
  intros providers env s jobId job tr Hwf Hget Hstarted.
  pose proof (Hwf jobId job (map_get_In _ _ Hget)) as (Hid & Hcb & Hfreq).
  destruct (run_callback_returns providers (task_callback (job_task job)) s tr)
    as (s' & Hrun & Hs').
  destruct (sendNotification providers
              (cb_notification (task_callback (job_task job)))
              (cb_options (task_callback (job_task job))) tr)
    as [outcome tr'] eqn:Hsend.
  exists s', outcome, tr'. split; [reflexivity|]. split.
  - unfold fire. now rewrite Hget, Hstarted.
  - rewrite Hfreq, Hcb in Hs'. split; intro Hf; rewrite Hf in Hs'; simpl in Hs'.
    + subst s'. unfold removeJob. rewrite Hget. simpl. split.
      * unfold getJob. simpl. now rewrite map_get_delete.
      * rewrite active_ids. simpl. rewrite in_map_iff.
        intros ([k j] & Hk & Hin). simpl in Hk.
        apply In_map_delete in Hin as [Hneq Hin].
        destruct (Hwf k j Hin) as (Hjid & _). congruence.
    + subst s'. split; [reflexivity|]. split.
      * unfold getJob. now rewrite Hget.
      * rewrite active_ids. apply in_map_iff. exists (jobId, job).
        split; [exact Hid | now apply map_get_In].
Qed.

Lemma once_job_removed_daily_job_kept_witness :
  let once_id := "notif_1793534400000_k3x9q2m1a" in
  let s_once :=
    snd (scheduleNotification sample_env sample (at_time "09:00" "once")
           no_options (start new_scheduler)) in
  let s_daily :=
    snd (scheduleNotification sample_env sample (at_time "09:00" "daily")
           no_options (start new_scheduler)) in
  (exists s' tr',
      fire [PusherProvider true down_transport] once_id s_once [] = (Return s', tr') /\
      getJob sample_env once_id s' = None /\
      ~ In once_id (map view_id (getActiveJobs sample_env s')))
  /\
  (exists s' tr',
      fire [PusherProvider true ok_transport] once_id s_daily [] = (Return s', tr') /\
      In once_id (map view_id (getActiveJobs sample_env s'))).
Proof.
  intros once_id s_once s_daily.
  assert (Hwf : forall schedule,
             well_formed
               (snd (scheduleNotification sample_env sample schedule no_options
                       (start new_scheduler)))).
  { intro schedule. apply well_formed_schedule. intros k j []. }
  split.
  - destruct (once_job_removed_daily_job_kept
                [PusherProvider true down_transport] sample_env
                once_id [] (Hwf (at_time "09:00" "once")) eq_refl eq_refl)
      as (s' & outcome & tr' & _ & Hfire & Honce & _).
    exists s', tr'. split; [exact Hfire|]. apply Honce. reflexivity.
  - destruct (once_job_removed_daily_job_kept
                [PusherProvider true ok_transport] sample_env
                once_id [] (Hwf (at_time "09:00" "daily")) eq_refl eq_refl)
      as (s' & outcome & tr' & _ & Hfire & _ & Hdaily).
    exists s', tr'. split; [exact Hfire|]. apply Hdaily. reflexivity.
Defined.

(** ** Stopped scheduler *)

Lemma stopped_step (providers : list Provider) (op : Op) (s : SchedulerService)
    (tr : Trace) :
  running s = false -> jobs s = [] -> is_start op = false ->
  exists s' tr',
    step providers op s tr = (Return s', tr') /\
    running s' = false /\ jobs s' = [].
Proof.
  intros Hrun Hjobs Hop.
  assert (Hrm : forall jobId, snd (removeJob jobId s) = s).
  { intro jobId. unfold removeJob. now rewrite Hjobs. }
  destruct op as [| |env n schedule options|jobId|jobId|cb]; simpl;
    try discriminate.
  - exists (stop s), tr. repeat split.
  - exists s, tr. unfold scheduleNotification. rewrite Hrun. repeat split; assumption.
  - exists s, tr. rewrite Hrm. repeat split; assumption.
  - exists s, tr. unfold fire. rewrite Hjobs. repeat split; assumption.
  - destruct (run_callback_returns providers cb s tr) as (s' & Hcb & Hs').
    rewrite Hrm in Hs'. exists s'. eexists. split; [exact Hcb|].
    destruct (String.eqb _ _); subst s'; split; assumption.
Qed.

(** C10: while the scheduler is not running (before [start], or after
    [stop]), [scheduleNotification] throws 'Scheduler service is not
    running' at the call and leaves the scheduler as it was, whatever the
    notification, schedule and options; after [stop] the registry is empty
    and the scheduler not running; and from a scheduler that is not running
    and has an empty registry (a new one, or one just stopped) every
    sequence of operations without [start] leaves the registry empty. *)
Theorem not_running_scheduler :
  (forall env n schedule options s,
      running s = false ->
      scheduleNotification env n schedule options s = (Throw SchedulerNotRunning, s))
  /\ message SchedulerNotRunning = "Scheduler service is not running"
  /\ (running new_scheduler = false /\ jobs new_scheduler = [])
  /\ (forall s, running (stop s) = false /\ jobs (stop s) = [])
  /\ (forall providers ops s tr,
         running s = false -> jobs s = [] ->
         forallb (fun op => negb (is_start op)) ops = true ->
         exists s' tr',
           steps providers ops s tr = (Return s', tr') /\
           running s' = false /\ jobs s' = []).
Proof.
  split; [|split; [|split; [|split]]].
  - intros env n schedule options s Hrun. unfold scheduleNotification.
    now rewrite Hrun.
  - reflexivity.
  - split; reflexivity.
  - intro s. split; reflexivity.
  - intros providers ops. induction ops as [|op ops IH]; intros s tr Hrun Hjobs Hops.
    + exists s, tr. repeat split; assumption.
    + simpl in Hops. apply andb_prop in Hops as [Hop Hops].
      apply negb_true_iff in Hop.
      destruct (@stopped_step providers op s tr Hrun Hjobs Hop)
        as (s1 & tr1 & Hstep & Hrun1 & Hjobs1).
      destruct (IH s1 tr1 Hrun1 Hjobs1 Hops) as (s' & tr' & Hsteps & Hr & Hj).
      exists s', tr'. split; [|split; assumption].
      simpl. unfold bind. now rewrite Hstep.
Qed.

Lemma not_running_scheduler_witness :
  let s :=
    stop (snd (scheduleNotification sample_env sample (at_time "09:00" "daily")
                 no_options (start new_scheduler))) in
  scheduleNotification sample_env sample (at_time "09:00" "daily") no_options
    new_scheduler = (Throw SchedulerNotRunning, new_scheduler)
  /\
  scheduleNotification sample_env sample (at_time "09:00" "daily") no_options s =
    (Throw SchedulerNotRunning, s)
  /\
  exists s' tr',
    steps [PusherProvider true ok_transport]
      [OpSchedule sample_env sample (at_time "09:00" "daily") no_options;
       OpFire "notif_1793534400000_k3x9q2m1a";
       OpCallback (mkCallback "notif_1793534400000_k3x9q2m1a" "daily" sample
                     no_options);
       OpRemove "notif_1793534400000_k3x9q2m1a"; OpStop]
      s [] = (Return s', tr') /\
    running s' = false /\ jobs s' = [].
Proof.
  intro s. destruct not_running_scheduler as (Hsched & _ & _ & _ & Hsteps).
  split; [|split].
  - apply Hsched. reflexivity.
  - apply Hsched. reflexivity.
  - apply Hsteps; reflexivity.
Defined.

(** * Further properties *)

(** ** Retry bounds *)

Lemma loop_bounds (p : Provider) (n : Notification) (attempts : nat) :
  forall k i tr,
    i + S k = attempts ->
    exists delta,
      snd (sendWithRetry_loop p n attempts i (S k) tr) = tr ++ delta /\
      count_sends (name p) delta <= S k /\
      count_sends (name p) delta = length (delays delta) + 1 /\
      2 * list_sum (delays delta) + retryDelay p * (i * (i + 1)) <=
        retryDelay p * (attempts * (attempts - 1)).
Proof.
  induction k as [|k IH]; intros i tr Hi; rewrite loop_step.
  - assert (Hbase : exists delta,
               tr ++ [EvSend (name p) n] = tr ++ delta /\
               count_sends (name p) delta <= 1 /\
               count_sends (name p) delta = length (delays delta) + 1 /\
               2 * list_sum (delays delta) + retryDelay p * (i * (i + 1)) <=
                 retryDelay p * (attempts * (attempts - 1))).
    { exists [EvSend (name p) n]. rewrite count_sends_last. simpl.
      subst attempts. replace (i + 1 - 1) with i by lia.
      repeat split; first [lia | nia]. }
    destruct (send_of p (enabled p) tr n); [exact Hbase|].
    replace (Nat.eqb i (attempts - 1)) with true
      by (symmetry; apply Nat.eqb_eq; lia).
    exact Hbase.
  - destruct (send_of p (enabled p) tr n).
    + exists [EvSend (name p) n]. rewrite count_sends_last. simpl.
      subst attempts. replace (i + S (S k) - 1) with (i + S k) by lia.
      repeat split; first [lia | nia].
    + replace (Nat.eqb i (attempts - 1)) with false
        by (symmetry; apply Nat.eqb_neq; lia).
      destruct (IH (S i) (tr ++ [EvSend (name p) n;
                                 EvDelay (retryDelay p * (i + 1))]))
        as (delta & Hd & Hle & Heq & Hsum); [lia|].
      exists (EvSend (name p) n :: EvDelay (retryDelay p * (i + 1)) :: delta).
      split; [rewrite Hd; retrace|].
      change (EvSend (name p) n :: EvDelay (retryDelay p * (i + 1)) :: delta)
        with ([EvSend (name p) n] ++ [EvDelay (retryDelay p * (i + 1))] ++ delta).
      rewrite !count_sends_app, !delays_app, count_sends_last.
      change (count_sends (name p) [EvDelay (retryDelay p * (i + 1))]) with 0.
      change (delays [EvSend (name p) n]) with (@nil nat).
      change (delays [EvDelay (retryDelay p * (i + 1))])
        with [retryDelay p * (i + 1)].
      simpl app. simpl length. simpl list_sum.
      repeat split; first [lia | nia].
Qed.

(** X1: [sendWithRetry] calls [send] at most [attempts] times, and only the
    [send] of its own provider.  With [attempts = 0] it calls nothing and
    returns [undefined]; otherwise it waits once less than it calls, and all
    its waits together last at most [retryDelay * attempts * (attempts - 1)
    / 2]. *)
Theorem sendWithRetry_bounds :
  forall (p : Provider) (n : Notification) (attempts : nat) (tr : Trace),
  exists delta,
    snd (sendWithRetry p n attempts tr) = tr ++ delta /\
    Forall (sent_by [name p]) delta /\
    count_sends (name p) delta <= attempts /\
    2 * list_sum (delays delta) <= retryDelay p * (attempts * (attempts - 1)) /\
    ((attempts = 0 /\ delta = [] /\
      fst (sendWithRetry p n attempts tr) = Return None)
     \/
     (1 <= attempts /\
      count_sends (name p) delta = length (delays delta) + 1)).
Proof.
  intros p n attempts tr. unfold sendWithRetry.
  destruct attempts as [|k].
  - exists []. simpl. rewrite app_nil_r. repeat split; try lia; auto.
  - destruct (@loop_bounds p n (S k) k 0 tr eq_refl)
      as (delta & Hd & Hle & Heq & Hsum).
    destruct (loop_trace p n (S k) (S k) 0 tr) as (delta' & Hd' & Hall).
    assert (delta' = delta) by (rewrite Hd in Hd'; now apply app_inv_head in Hd').
    subst delta'. exists delta.
    split; [exact Hd|]. split; [exact Hall|]. split; [exact Hle|].
    split; [lia|]. right. split; [lia | exact Heq].
Qed.

(** ** What the failover sends *)

Lemma eligible_names_cons (n : Notification) (p : Provider) (ps : list Provider) :
  incl (map getName (filter (eligible n) ps))
       (map getName (filter (eligible n) (p :: ps))).
Proof.
  simpl. destruct (eligible n p); [apply incl_tl|]; apply incl_refl.
Qed.

Lemma Exhausted_trace_eligible (n : Notification) (ps : list Provider)
    (tr tr' : Trace) (errs : list ErrorEntry) :
  Exhausted n ps tr errs tr' ->
  exists delta,
    tr' = tr ++ delta /\
    Forall (sent_by (map getName (filter (eligible n) ps))) delta.
Proof.
  induction 1 as [tr | p ps tr errs tr' Hen _ IH | p ps tr errs tr' Hen Hcan _ IH
                 | p ps tr e tr1 errs tr' Hen Hcan Hsend _ IH].
  - exists []. now rewrite app_nil_r.
  - destruct IH as (delta & -> & Hall). exists delta. split; [reflexivity|].
    eapply Forall_sent_by_incl; [apply eligible_names_cons | exact Hall].
  - destruct IH as (delta & -> & Hall). exists delta. split; [reflexivity|].
    eapply Forall_sent_by_incl; [apply eligible_names_cons | exact Hall].
  - destruct IH as (delta & -> & Hall).
    destruct (sendWithRetry_trace p n (retryAttempts p) tr) as (d1 & Hd1 & Hall1).
    rewrite Hsend in Hd1. simpl in Hd1. subst tr1.
    exists (d1 ++ delta). split; [now rewrite app_assoc|].
    apply Forall_app. split.
    + eapply Forall_sent_by_incl; [|exact Hall1].
      intros x [<-|[]]. simpl. unfold eligible. rewrite Hen, Hcan. now left.
    + eapply Forall_sent_by_incl; [apply eligible_names_cons | exact Hall].
Qed.

Lemma eligible_names_app (n : Notification) (a b : list Provider) :
  incl (map getName (filter (eligible n) a))
       (map getName (filter (eligible n) (a ++ b))).
Proof. rewrite filter_app, map_app. apply incl_appl, incl_refl. Qed.

(** Every [send] of a failover dispatch is that of an eligible provider. *)
Lemma failover_delta (providers : list Provider) (n : Notification)
    (options : Options) (tr : Trace) :
  requested_provider options = None ->
  exists delta,
    snd (sendNotification providers n options tr) = tr ++ delta /\
    Forall (sent_by (map getName (filter (eligible n) providers))) delta.
Proof.
  intro Hreq. destruct providers as [|p0 ps0] eqn:Hps.
  - exists []. unfold sendNotification. simpl. now rewrite app_nil_r.
  - rewrite <- Hps. rewrite sendNotification_failover;
      [| rewrite Hps; discriminate | exact Hreq].
    destruct (failover_cases n providers tr)
      as [(errs & tr' & Hex)
         |(pre & p & post & errs & tr1 & result & tr2 & Heq & Hex & Hen & Hcan & Hs)].
    + pose proof (failover_exhausted providers Hex [] []) as Hrun.
      rewrite app_nil_r in Hrun. rewrite Hrun. simpl.
      now apply (@Exhausted_trace_eligible n providers tr tr' errs).
    + pose proof (failover_exhausted providers Hex (p :: post) []) as Hrun.
      rewrite <- Heq in Hrun. rewrite Hrun. simpl.
      rewrite Hen, Hcan. simpl. unfold bind, attempt. rewrite Hs. simpl.
      destruct (Exhausted_trace_eligible Hex) as (d1 & -> & Hall1).
      destruct (sendWithRetry_trace p n (retryAttempts p) (tr ++ d1))
        as (d2 & Hd2 & Hall2).
      rewrite Hs in Hd2. simpl in Hd2. subst tr2.
      exists (d1 ++ d2). split; [now rewrite app_assoc|].
      rewrite Heq. apply Forall_app. split.
      * eapply Forall_sent_by_incl; [apply eligible_names_app | exact Hall1].
      * eapply Forall_sent_by_incl; [|exact Hall2].
        intros x [<-|[]]. rewrite filter_app, map_app. apply in_or_app. right.
        simpl. unfold eligible. rewrite Hen, Hcan. now left.
Qed.

(** X2: on the failover path, whatever the outcome, every [send] the
    dispatch makes is the [send] of a provider of the list that is enabled
    and can handle the notification: a provider that is disabled or cannot
    handle it (and shares its name with no eligible one) is never called. *)
Theorem failover_sends_to_eligible_only :
  forall (providers : list Provider) (n : Notification) (options : Options)
         (tr : Trace),
    requested_provider options = None ->
    exists delta,
      snd (sendNotification providers n options tr) = tr ++ delta /\
      Forall (sent_by (map getName (filter (eligible n) providers))) delta /\
      (forall q,
          ~ In (getName q) (map getName (filter (eligible n) providers)) ->
          count_sends (getName q) (snd (sendNotification providers n options tr)) =
          count_sends (getName q) tr).
Proof.
  intros providers n options tr Hreq.
  destruct (@failover_delta providers n options tr Hreq) as (delta & Hd & Hall).
  exists delta. split; [exact Hd|]. split; [exact Hall|].
  intros q Hq. rewrite Hd, count_sends_app.
  rewrite (@count_sends_others (getName q) _ delta Hall Hq). lia.
Qed.

Lemma failover_sends_to_eligible_only_witness :
  let providers :=
    [set_enabled (flaky "A" 0) false; FirebaseProvider true true true ok_transport;
     flaky "C" 5; flaky "D" 0] in
  exists delta,
    snd (sendNotification providers sample no_options []) = [] ++ delta /\
    count_sends "A" (snd (sendNotification providers sample no_options [])) = 0 /\
    count_sends "Firebase" (snd (sendNotification providers sample no_options [])) = 0.
Proof.
  intro providers.
  destruct (@failover_sends_to_eligible_only providers sample no_options []
              eq_refl) as (delta & Hd & _ & Hcount).
  exists delta. split; [exact Hd|]. split.
  - apply (Hcount (set_enabled (flaky "A" 0) false)).
    simpl. intros [H|[H|[]]]; discriminate H.
  - apply (Hcount (FirebaseProvider true true true ok_transport)).
    simpl. intros [H|[H|[]]]; discriminate H.
Defined.

(** ** The result of a successful failover *)

Lemma failover_success_result (pre post : list Provider) (p : Provider)
    (n : Notification) (options : Options) (tr tr1 tr2 : Trace)
    (errs : list ErrorEntry) (result : option Receipt) :
  requested_provider options = None ->
  Exhausted n pre tr errs tr1 ->
  isEnabled p = true ->
  canHandle p n = true ->
  sendWithRetry p n (retryAttempts p) tr1 = (Return result, tr2) ->
  sendNotification (pre ++ p :: post) n options tr =
  (Return (mkDispatchResult true [result]
             (if Nat.ltb 0 (length errs) then Some errs else None)
             (count_if (fun q => canHandle q n) (pre ++ p :: post))
             1
             (count_if (fun e => negb (err_skipped e)) errs)
             (Some (count_if err_skipped errs))
             (Some (getName p))),
   tr2).
Proof.
  intros Hreq Hpre Hen Hcan Hsend.
  rewrite sendNotification_failover; [| now destruct pre | exact Hreq].
  rewrite (failover_exhausted _ Hpre). simpl.
  rewrite Hen, Hcan. simpl. unfold bind, attempt. now rewrite Hsend.
Qed.

Lemma count_if_split (A : Type) (f : A -> bool) (l : list A) :
  count_if f l + count_if (fun x => negb (f x)) l = length l.
Proof.
  unfold count_if. induction l as [|x l IH]; [reflexivity|].
  simpl. destruct (f x); simpl; lia.
Qed.

(** X3: the counts of a successful failover dispatch.  [failedProviders] is
    the number of providers before the used one that were tried and failed,
    [skippedProviders] the number of those that were skipped; together they
    are all the providers before the used one.  [errors] is left out exactly
    when the used provider is the first of the list.  [totalProviders]
    counts the providers of the whole list that can handle the notification,
    enabled or not. *)
Theorem dispatch_result_accounting :
  forall (pre post : list Provider) (p : Provider) (n : Notification)
         (options : Options) (tr tr1 tr2 : Trace) (errs : list ErrorEntry)
         (result : option Receipt),
    requested_provider options = None ->
    Exhausted n pre tr errs tr1 ->
    isEnabled p = true ->
    canHandle p n = true ->
    sendWithRetry p n (retryAttempts p) tr1 = (Return result, tr2) ->
    exists r skipped,
      sendNotification (pre ++ p :: post) n options tr = (Return r, tr2) /\
      failedProviders r = count_if (eligible n) pre /\
      skippedProviders r = Some skipped /\
      skipped = count_if (fun q => negb (eligible n q)) pre /\
      failedProviders r + skipped = length pre /\
      errors r = (if Nat.eqb (length pre) 0 then None else Some errs) /\
      totalProviders r = count_if (fun q => canHandle q n) (pre ++ p :: post) /\
      successfulProviders r = 1.
Proof.
  intros pre post p n options tr tr1 tr2 errs result Hreq Hpre Hen Hcan Hsend.
  destruct (Exhausted_entries Hpre) as (Hlen & _ & Hfailed & Hskipped).
  eexists. eexists. split.
  - eapply failover_success_result; eassumption.
  - simpl. rewrite Hfailed, Hskipped, Hlen.
    split; [reflexivity|]. split; [reflexivity|]. split; [reflexivity|].
    split; [apply count_if_split|]. split; [|split; reflexivity].
    now destruct pre.
Qed.

Lemma dispatch_result_accounting_witness :
  exists r tr2,
    sendNotification
      ([set_enabled (PusherProvider true ok_transport) false;
        FirebaseProvider true true true ok_transport;
        flaky "A" 5]
       ++ flaky "B" 1 :: [flaky "C" 0])
      sample no_options [] = (Return r, tr2) /\
    failedProviders r = 1 /\
    skippedProviders r = Some 2 /\
    totalProviders r = 4.
Proof.
  destruct (@dispatch_result_accounting
              [set_enabled (PusherProvider true ok_transport) false;
               FirebaseProvider true true true ok_transport;
               flaky "A" 5]
              [flaky "C" 0] (flaky "B" 1) sample no_options []
              [EvSend "A" sample; EvDelay 1000; EvSend "A" sample; EvDelay 2000;
               EvSend "A" sample]
              [EvSend "A" sample; EvDelay 1000; EvSend "A" sample; EvDelay 2000;
               EvSend "A" sample; EvSend "B" sample; EvDelay 1000;
               EvSend "B" sample]
              [mkErrorEntry "Pusher" "Provider is disabled" true;
               mkErrorEntry "Firebase"
                 "Provider cannot handle this notification type" true;
               mkErrorEntry "A" "temporary failure" false]
              (Some (mkReceipt "B" "delivered" "now")))
    as (r & skipped & Hr & Hfailed & Hskipped & Hsk & _ & _ & Htotal & _).
  - reflexivity.
  - apply Exhausted_disabled; [reflexivity|].
    apply Exhausted_unsupported; [reflexivity | reflexivity |].
    apply (@Exhausted_failed sample (flaky "A" 5) [] []
             (ProviderError "temporary failure")
             [EvSend "A" sample; EvDelay 1000; EvSend "A" sample; EvDelay 2000;
              EvSend "A" sample]);
      [reflexivity | reflexivity | reflexivity | apply Exhausted_nil].
  - reflexivity.
  - reflexivity.
  - reflexivity.
  - exists r. eexists. split; [exact Hr|]. split; [exact Hfailed|].
    split; [rewrite Hskipped, Hsk; reflexivity | exact Htotal].
Defined.

(** ** Switching providers on and off *)

Lemma updateProviderStatus_absent (ps : list Provider) (nm : string) (e : bool) :
  (forall p, In p ps -> ~ same_name nm p) ->
  updateProviderStatus ps nm e = (false, ps).
Proof.
  unfold same_name. induction ps as [|q ps IH]; intro Habs; [reflexivity|].
  simpl. destruct (String.eqb_spec (Js.toLowerCase (getName q))
                     (Js.toLowerCase nm)) as [Heq|_].
  - exfalso. apply (Habs q); [now left | exact Heq].
  - rewrite IH; [reflexivity|]. intros p Hp. apply Habs. now right.
Qed.

Lemma updateProviderStatus_first (pre post : list Provider) (p : Provider)
    (nm : string) (e : bool) :
  (forall q, In q pre -> ~ same_name nm q) ->
  same_name nm p ->
  updateProviderStatus (pre ++ p :: post) nm e =
  (true, pre ++ set_enabled p e :: post).
Proof.
  unfold same_name. induction pre as [|q ps IH]; intros Habs Hp; simpl.
  - rewrite Hp. now rewrite String.eqb_refl.
  - destruct (String.eqb_spec (Js.toLowerCase (getName q))
                (Js.toLowerCase nm)) as [Heq|_].
    + exfalso. apply (Habs q); [now left | exact Heq].
    + rewrite IH; [reflexivity | | exact Hp].
      intros r Hr. apply Habs. now right.
Qed.

(** The first provider bearing a name, if there is one. *)
Lemma first_match (ps : list Provider) (nm : string) :
  (forall p, In p ps -> ~ same_name nm p) \/
  (exists pre p post,
      ps = pre ++ p :: post /\
      (forall q, In q pre -> ~ same_name nm q) /\
      same_name nm p).
Proof.
  unfold same_name. induction ps as [|q ps IH].
  - left. intros p [].
  - destruct (String.eqb_spec (Js.toLowerCase (getName q))
                (Js.toLowerCase nm)) as [Heq|Hneq].
    + right. exists [], q, ps. repeat split; [|exact Heq]. intros r [].
    + destruct IH as [Habs|(pre & p & post & -> & Habs & Hp)].
      * left. intros p [<-|Hp]; [exact Hneq | now apply Habs].
      * right. exists (q :: pre), p, post. repeat split; [|exact Hp].
        intros r [<-|Hr]; [exact Hneq | now apply Habs].
Qed.

(** X4: [updateProviderStatus] answers false and changes nothing when no
    provider bears the name, letter case apart; otherwise it answers true and
    overwrites the flag of the first provider bearing the name, and of that
    one only.  Either way the providers keep their names and their order. *)
Theorem updateProviderStatus_spec :
  forall (ps : list Provider) (nm : string) (e : bool),
    map getName (snd (updateProviderStatus ps nm e)) = map getName ps /\
    ((updateProviderStatus ps nm e = (false, ps) /\
      forall p, In p ps -> ~ same_name nm p)
     \/
     (exists pre p post,
         ps = pre ++ p :: post /\
         (forall q, In q pre -> ~ same_name nm q) /\
         same_name nm p /\
         updateProviderStatus ps nm e = (true, pre ++ set_enabled p e :: post) /\
         enabled (set_enabled p e) = e)).
Proof.
  intros ps nm e.
  destruct (first_match ps nm) as [Habs|(pre & p & post & -> & Habs & Hp)].
  - rewrite (@updateProviderStatus_absent ps nm e Habs). split; [reflexivity|].
    left. split; [reflexivity | exact Habs].
  - rewrite (@updateProviderStatus_first pre post p nm e Habs Hp). split.
    + simpl. rewrite !map_app. reflexivity.
    + right. exists pre, p, post. repeat split; assumption.
Qed.

Lemma updateProviderStatus_spec_witness :
  updateProviderStatus
    [OneSignalProvider true ok_transport; PusherProvider true ok_transport]
    "PUSHER" false =
  (true,
   [OneSignalProvider true ok_transport;
    set_enabled (PusherProvider true ok_transport) false])
  /\
  updateProviderStatus [OneSignalProvider true ok_transport] "pusher" false =
  (false, [OneSignalProvider true ok_transport]).
Proof.
  split.
  - destruct (updateProviderStatus_spec
                [OneSignalProvider true ok_transport;
                 PusherProvider true ok_transport] "PUSHER" false)
      as [_ [[H _]|(pre & p & post & _ & _ & _ & H & _)]].
    + discriminate H.
    + reflexivity.
  - destruct (updateProviderStatus_spec
                [OneSignalProvider true ok_transport] "pusher" false)
      as [_ [[H _]|(pre & p & post & _ & _ & _ & H & _)]].
    + exact H.
    + discriminate H.
Defined.

Lemma set_enabled_restore (p : Provider) (e : bool) :
  set_enabled (set_enabled p e) (enabled p) = p.
Proof. now destruct p. Qed.

(** X5: switching a provider off and then back to the value its flag had
    gives the provider list back as it was. *)
Theorem updateProviderStatus_round_trip :
  forall (pre post : list Provider) (p : Provider) (nm : string) (e : bool),
    (forall q, In q pre -> ~ same_name nm q) ->
    same_name nm p ->
    updateProviderStatus
      (snd (updateProviderStatus (pre ++ p :: post) nm e)) nm (enabled p) =
    (true, pre ++ p :: post).
Proof.
  intros pre post p nm e Habs Hp.
  rewrite (@updateProviderStatus_first pre post p nm e Habs Hp). simpl.
  rewrite (@updateProviderStatus_first pre post (set_enabled p e) nm (enabled p));
    [| exact Habs | exact Hp].
  now rewrite set_enabled_restore.
Qed.

Lemma updateProviderStatus_round_trip_witness :
  let ps := [OneSignalProvider true ok_transport; PusherProvider true ok_transport] in
  updateProviderStatus (snd (updateProviderStatus ps "pusher" false)) "pusher" true =
  (true, ps).
Proof.
  intro ps.
  apply (@updateProviderStatus_round_trip
           [OneSignalProvider true ok_transport] []
           (PusherProvider true ok_transport) "pusher" false).
  - intros q [<-|[]]. unfold same_name. simpl. discriminate.
  - reflexivity.
Defined.

(** X6: once [updateProviderStatus] has switched a provider off, a failover
    dispatch no longer calls its [send] (the provider being the only one of
    its name, and its [isEnabled] reading the flag, as that of every variant
    does). *)
Theorem disabled_provider_not_called :
  forall (pre post : list Provider) (p : Provider) (nm : string)
         (n : Notification) (options : Options) (tr : Trace),
    (forall q, In q pre -> ~ same_name nm q) ->
    same_name nm p ->
    (forall q, In q (pre ++ post) -> getName q <> getName p) ->
    isEnabled_of p false = false ->
    requested_provider options = None ->
    count_sends (getName p)
      (snd (sendNotification
              (snd (updateProviderStatus (pre ++ p :: post) nm false))
              n options tr)) =
    count_sends (getName p) tr.
Proof.
  intros pre post p nm n options tr Habs Hp Hnames Hoff Hreq.
  rewrite (@updateProviderStatus_first pre post p nm false Habs Hp). simpl.
  destruct (@failover_delta (pre ++ set_enabled p false :: post) n options tr Hreq)
    as (delta & Hd & Hall).
  rewrite Hd, count_sends_app.
  rewrite (@count_sends_others (getName p) _ delta Hall); [lia|].
  rewrite in_map_iff. intros (q & Hq & Hin).
  apply filter_In in Hin as [Hin Hel].
  apply in_app_or in Hin as [Hin|[<-|Hin]].
  - apply (Hnames q); [apply in_or_app; now left | exact Hq].
  - unfold eligible, isEnabled in Hel. simpl in Hel. rewrite Hoff in Hel.
    discriminate Hel.
  - apply (Hnames q); [apply in_or_app; now right | exact Hq].
Qed.

Lemma disabled_provider_not_called_witness :
  count_sends "A"
    (snd (sendNotification
            (snd (updateProviderStatus [flaky "A" 0; flaky "B" 0] "a" false))
            sample no_options [])) = 0.
Proof.
  apply (@disabled_provider_not_called [] [flaky "B" 0] (flaky "A" 0) "a"
           sample no_options []).
  - intros q [].
  - reflexivity.
  - intros q [<-|[]]. discriminate.
  - reflexivity.
  - reflexivity.
Defined.

(** X7: a Firebase provider that did not initialise (it was constructed
    disabled, or its configuration was incomplete, or the SDK refused it)
    stays disabled whatever is written to its flag afterwards, and its
    [send] fails. *)
Theorem firebase_uninitialised_stays_disabled :
  forall (config_complete init_ok constructed_enabled : bool)
         (transport : Transport) (e : bool),
    constructed_enabled && config_complete && init_ok = false ->
    let p :=
      set_enabled
        (FirebaseProvider config_complete init_ok constructed_enabled transport) e in
    isEnabled p = false /\
    forall tr n, is_throw (send_of p (enabled p) tr n) = true.
Proof.
  intros cc io en transport e H. unfold isEnabled. simpl. rewrite H.
  split; [apply andb_false_r|].
  intros tr n. destruct e; reflexivity.
Qed.

Lemma firebase_uninitialised_stays_disabled_witness :
  isEnabled (set_enabled (FirebaseProvider false true true ok_transport) true) = false.
Proof.
  apply (@firebase_uninitialised_stays_disabled false true true ok_transport true).
  reflexivity.
Defined.

(** ** Deliveries of the variants *)

Lemma guarded_send_returns (pname prefix : string) (transport : Transport)
    (tr : Trace) (n : Notification) (receipt : Receipt) :
  guarded_send pname prefix transport tr n = Return receipt ->
  Js.truthy (title n) || Js.truthy (body n) = true /\
  exists reply,
    transport tr n = inr reply /\
    receipt = mkReceipt pname (reply_result reply) (reply_time reply).
Proof.
  unfold guarded_send, BaseProvider_validateNotification.
  destruct (Js.truthy (title n)), (Js.truthy (body n)); simpl;
    try discriminate;
    (destruct (transport tr n) as [msg|reply]; [discriminate|];
     intros [= <-]; split; [reflexivity|]; now exists reply).
Qed.

(** X8: a variant delivers only when it is enabled, the notification has a
    title or a body, and its transport answered; Firebase moreover only when
    the notification has a token, a token list or a topic, and Pusher only
    when it was constructed enabled.  The receipt then carries the variant's
    name and the transport's answer. *)
Theorem variant_delivery_preconditions :
  forall (transport : Transport) (this_enabled : bool) (tr : Trace)
         (n : Notification) (receipt : Receipt),
    (forall cc io en,
        send_of (FirebaseProvider cc io en transport) this_enabled tr n =
          Return receipt ->
        this_enabled = true /\ en && cc && io = true /\
        Firebase_canHandle n = true /\
        Js.truthy (title n) || Js.truthy (body n) = true /\
        exists reply,
          transport tr n = inr reply /\
          receipt = mkReceipt "Firebase" (reply_result reply) (reply_time reply))
    /\
    (forall en,
        send_of (OneSignalProvider en transport) this_enabled tr n =
          Return receipt ->
        this_enabled = true /\
        Js.truthy (title n) || Js.truthy (body n) = true /\
        exists reply,
          transport tr n = inr reply /\
          receipt = mkReceipt "OneSignal" (reply_result reply) (reply_time reply))
    /\
    (forall en,
        send_of (PusherProvider en transport) this_enabled tr n =
          Return receipt ->
        this_enabled = true /\ en = true /\
        Js.truthy (title n) || Js.truthy (body n) = true /\
        exists reply,
          transport tr n = inr reply /\
          receipt = mkReceipt "Pusher" (reply_result reply) (reply_time reply)).
Proof.
  intros transport this_enabled tr n receipt. split; [|split].
  - intros cc io en. simpl.
    destruct this_enabled; simpl; [|discriminate].
    destruct (en && cc && io); simpl; [|discriminate].
    destruct (Firebase_canHandle n); simpl; [|discriminate].
    intro H. apply guarded_send_returns in H as [Hv Hr]. auto.
  - intros en. simpl.
    destruct this_enabled; simpl; [|discriminate].
    intro H. apply guarded_send_returns in H as [Hv Hr]. auto.
  - intros en. simpl.
    destruct this_enabled; simpl; [|discriminate].
    intro H. apply guarded_send_returns in H as [Hv (reply & Hreply & ->)].
    destruct en; [|discriminate].
    split; [reflexivity|]. split; [reflexivity|]. split; [exact Hv|].
    now exists reply.
Qed.

Lemma variant_delivery_preconditions_witness :
  let n := mkNotification "Hello" "World" (Some "device-token") None None None None in
  Firebase_canHandle n = true /\
  ok_transport [] n = inr (mkReply "ok" "now").
Proof.
  intro n.
  destruct (variant_delivery_preconditions ok_transport true [] n
              (mkReceipt "Firebase" "ok" "now")) as (H & _ & _).
  destruct (H true true true eq_refl) as (_ & _ & Hcan & _ & reply & Hreply & Heq).
  split; [exact Hcan|].
  rewrite Hreply. injection Heq as H1 H2. destruct reply. simpl in *. congruence.
Defined.

(** ** The provider list *)

Lemma getAvailableProviders_from_spec (ps : list Provider) :
  forall i,
    map info_name (getAvailableProviders_from i ps) = map getName ps /\
    map info_enabled (getAvailableProviders_from i ps) = map isEnabled ps /\
    map info_priority (getAvailableProviders_from i ps) = seq (i + 1) (length ps).
Proof.
  induction ps as [|p ps IH]; intro i; [repeat split|].
  destruct (IH (S i)) as (H1 & H2 & H3). simpl.
  rewrite H1, H2, H3. repeat split.
Qed.

(** X9: [getAvailableProviders] lists the providers in the order of the
    list, each with its name and whether it is enabled now, and numbers them
    1, 2, ... by position: the priority it reports is the rank in the list,
    not the configured priority number. *)
Theorem getAvailableProviders_spec :
  forall ps : list Provider,
    map info_name (getAvailableProviders ps) = map getName ps /\
    map info_enabled (getAvailableProviders ps) = map isEnabled ps /\
    map info_priority (getAvailableProviders ps) = seq 1 (length ps).
Proof. intro ps. apply (getAvailableProviders_from_spec ps 0). Qed.

Lemma insert_by_priority_perm (x : nat * Provider) (l : list (nat * Provider)) :
  Permutation (insert_by_priority x l) (x :: l).
Proof.
  induction l as [|y l IH]; simpl; [apply Permutation_refl|].
  destruct (Nat.ltb (fst x) (fst y)); [apply Permutation_refl|].
  eapply Permutation_trans; [apply perm_skip, IH | apply perm_swap].
Qed.

Lemma sort_by_priority_perm (l : list (nat * Provider)) :
  Permutation (sort_by_priority l) l.
Proof.
  unfold sort_by_priority.
  assert (H : forall acc,
             Permutation (fold_left (fun acc x => insert_by_priority x acc) l acc)
                         (l ++ acc)).
  { induction l as [|x l IH]; intro acc; simpl; [apply Permutation_refl|].
    eapply Permutation_trans; [apply IH|].
    eapply Permutation_trans;
      [apply Permutation_app_head, insert_by_priority_perm|].
    apply Permutation_sym, Permutation_middle. }
  specialize (H []). now rewrite app_nil_r in H.
Qed.

(** X10: [initializeProviders] keeps the entries of the table that are
    configured as enabled, and those only, each constructed enabled, and
    holds them in ascending order of their priority number. *)
Theorem initializeProviders_spec :
  forall table : list ProviderEntry,
  exists pairs,
    initializeProviders table = map snd pairs /\
    Sorted by_priority pairs /\
    Permutation pairs
      (map (fun e => (entry_priority e, entry_new e true))
         (filter entry_enabled table)) /\
    length (initializeProviders table) = count_if entry_enabled table.
Proof.
  intro table.
  assert (Heq : map (fun p => (entry_priority p, entry_new p (entry_enabled p)))
                  (filter entry_enabled table) =
                map (fun e => (entry_priority e, entry_new e true))
                  (filter entry_enabled table)).
  { apply map_ext_in. intros e He. apply filter_In in He as [_ ->]. reflexivity. }
  eexists. split; [reflexivity|]. split; [apply initializeProviders_sorted|].
  split.
  - rewrite <- Heq. apply sort_by_priority_perm.
  - unfold initializeProviders, count_if. rewrite length_map.
    rewrite (Permutation_length (sort_by_priority_perm _)).
    now rewrite length_map.
Qed.

(** X11: with the table and the priorities the service is built from, the
    providers are tried in the order Firebase, OneSignal, Pusher, those not
    enabled by the environment being left out; a Firebase provider that is
    enabled by the environment but whose credentials are incomplete is in the
    list, disabled. *)
Theorem provider_table_order :
  forall (firebase_enabled onesignal_enabled pusher_enabled : bool)
         (config_complete init_ok : bool) (tf t1 tp : Transport),
    let providers :=
      initializeProviders
        (provider_table firebase_enabled onesignal_enabled pusher_enabled
           config_complete init_ok tf t1 tp) in
    map getName providers =
      (if firebase_enabled then ["Firebase"] else []) ++
      (if onesignal_enabled then ["OneSignal"] else []) ++
      (if pusher_enabled then ["Pusher"] else []) /\
    map isEnabled providers =
      (if firebase_enabled then [config_complete && init_ok] else []) ++
      (if onesignal_enabled then [true] else []) ++
      (if pusher_enabled then [true] else []).
Proof.
  intros [] [] [] cc io tf t1 tp; split; try reflexivity;
    unfold isEnabled; simpl; now destruct cc, io.
Qed.

(** ** Scheduling and the registry *)

Lemma map_get_set_other (k k' : string) (v : Job) (m : JobMap) :
  k' <> k -> map_get k' (map_set k v m) = map_get k' m.
Proof.
  intro Hne. induction m as [|[k0 v0] m IH]; simpl.
  - destruct (String.eqb_spec k' k); [contradiction | reflexivity].
  - destruct (String.eqb_spec k k0) as [->|Hk]; simpl.
    + destruct (String.eqb_spec k' k0); [contradiction | reflexivity].
    + destruct (String.eqb k' k0); [reflexivity | exact IH].
Qed.

Lemma map_get_delete_other (k k' : string) (m : JobMap) :
  k' <> k -> map_get k' (map_delete k m) = map_get k' m.
Proof.
  intro Hne. induction m as [|[k0 v0] m IH]; simpl; [reflexivity|].
  destruct (String.eqb_spec k k0) as [->|Hk]; simpl.
  - destruct (String.eqb_spec k' k0); [contradiction | exact IH].
  - destruct (String.eqb k' k0); [reflexivity | exact IH].
Qed.

Lemma map_set_fresh (k : string) (v : Job) (m : JobMap) :
  map_get k m = None -> map_set k v m = m ++ [(k, v)].
Proof.
  induction m as [|[k0 v0] m IH]; simpl; [reflexivity|].
  destruct (String.eqb k k0); [discriminate|].
  intro H. now rewrite IH.
Qed.

Lemma prefix_short (k : nat) (s : string) :
  String.length s <= k -> Js.prefix k s = s.
Proof.
  unfold Js.prefix. revert s. induction k as [|k IH]; intros [|c s]; simpl;
    intro H; try reflexivity; try lia.
  rewrite IH by lia. reflexivity.
Qed.

Lemma prefix_long (k : nat) (s : string) :
  k <= String.length s -> String.length (Js.prefix k s) = k.
Proof.
  unfold Js.prefix. revert s. induction k as [|k IH]; intros [|c s]; simpl;
    intro H; try reflexivity; try lia.
  rewrite IH by lia. reflexivity.
Qed.

Lemma map_set_existing (k : string) (v v0 : Job) (m : JobMap) :
  map_get k m = Some v0 ->
  exists before after,
    m = before ++ (k, v0) :: after /\
    ~ In k (map fst before) /\
    map_set k v m = before ++ (k, v) :: after.
Proof.
  induction m as [|[k1 v1] m IH]; simpl; [discriminate|].
  destruct (String.eqb_spec k k1) as [->|Hne].
  - intros [= ->]. exists [], m. repeat split. intros [].
  - intro H. destruct (IH H) as (before & after & -> & Hnotin & ->).
    exists ((k1, v1) :: before), after. repeat split.
    simpl. intros [Heq|Hin]; [now apply Hne | now apply Hnotin].
Qed.

(** What a successful call of [scheduleNotification] did. *)
Lemma schedule_returns (env : Env) (n : Notification) (schedule : Schedule)
    (options : Options) (s s' : SchedulerService) (res : ScheduleResult) :
  scheduleNotification env n schedule options s = (Return res, s') ->
  exists time task,
    running s = true /\
    sch_time schedule = Some time /\
    Js.truthy time = true /\
    Regex.test time_pattern time = true /\
    task_started task = true /\
    task_callback task =
      mkCallback (sr_jobId res) (sr_frequency res) n options /\
    sr_frequency res = default "once" (sch_frequency schedule) /\
    sr_timezone res = default "UTC" (sch_timezone schedule) /\
    (sr_cronExpression res, sr_scheduledFor res) =
      trigger_rule env
        (nth 0 (map Js.Number (Js.split ":" time)) 0)
        (nth 1 (map Js.Number (Js.split ":" time)) 0)
        (sr_timezone res) (sr_frequency res) /\
    s' = mkScheduler
           (map_set (sr_jobId res)
              (mkJob (sr_jobId res)
                 (mkPreview (title n) (Js.prefix 100 (body n)))
                 (mkJobSchedule time (sr_timezone res) (sr_frequency res)
                    (sr_cronExpression res) (sr_scheduledFor res))
                 task (env_toISOString env) options)
              (jobs s))
           true.
Proof.
  unfold scheduleNotification.
  destruct (running s) eqn:Hrun; simpl; [|discriminate].
  destruct (sch_time schedule) as [time|]; [|discriminate].
  destruct (Js.truthy time) eqn:Htruthy; simpl; [|discriminate].
  destruct (Regex.test time_pattern time) eqn:Hmatch; simpl; [|discriminate].
  destruct (trigger_rule env _ _ _ _) as [cronExpression scheduledFor] eqn:Hrule.
  unfold cron_schedule.
  destruct (env_cron_rejects env _ _) as [msg|]; [discriminate|].
  intros [= <- <-]. simpl.
  exists time. eexists (mkTask _ _ _ true).
  repeat split; try assumption. now rewrite Hrule.
Qed.

(** X12: a call of [scheduleNotification] that throws leaves the scheduler
    exactly as it was, and it throws only because the scheduler is not
    running, because the time is missing or does not match the pattern, or
    because the cron library refuses the task. *)
Theorem schedule_failure_changes_nothing :
  forall (env : Env) (n : Notification) (schedule : Schedule) (options : Options)
         (s s' : SchedulerService) (e : Error),
    scheduleNotification env n schedule options s = (Throw e, s') ->
    s' = s /\
    ((e = SchedulerNotRunning /\ running s = false) \/
     (e = InvalidTimeFormat /\ running s = true /\
      match sch_time schedule with
      | Some time => Js.truthy time && Regex.test time_pattern time = false
      | None => True
      end) \/
     (exists msg, e = CronError msg /\ running s = true)).
Proof.
  intros env n schedule options s s' e. unfold scheduleNotification.
  destruct (running s) eqn:Hrun; simpl.
  - destruct (sch_time schedule) as [time|].
    + destruct (Js.truthy time); simpl.
      * destruct (Regex.test time_pattern time); simpl.
        -- destruct (trigger_rule env _ _ _ _) as [cronExpression scheduledFor].
           unfold cron_schedule.
           destruct (env_cron_rejects env _ _) as [msg|]; [|discriminate].
           intros [= <- <-]. split; [reflexivity|]. right. right. now exists msg.
        -- intros [= <- <-]. split; [reflexivity|]. right. left. auto.
      * intros [= <- <-]. split; [reflexivity|]. right. left. auto.
    + intros [= <- <-]. split; [reflexivity|]. right. left. auto.
  - intros [= <- <-]. split; [reflexivity|]. left. auto.
Qed.

Lemma schedule_failure_changes_nothing_witness :
  let s :=
    snd (scheduleNotification sample_env sample (at_time "09:00" "daily")
           no_options (start new_scheduler)) in
  scheduleNotification sample_env2 sample (at_time "24:00" "daily") no_options s =
    (Throw InvalidTimeFormat, s) /\
  (s = s /\
   ((InvalidTimeFormat = SchedulerNotRunning /\ running s = false) \/
    (InvalidTimeFormat = InvalidTimeFormat /\ running s = true /\
     Js.truthy "24:00" && Regex.test time_pattern "24:00" = false) \/
    (exists msg, InvalidTimeFormat = CronError msg /\ running s = true))).
Proof.
  intro s. split; [reflexivity|].
  exact (@schedule_failure_changes_nothing sample_env2 sample
           (at_time "24:00" "daily") no_options s s InvalidTimeFormat eq_refl).
Defined.

(** X13: after a successful [scheduleNotification], [getJob] of the
    returned identifier finds the job: with that identifier, the
    notification's title, the schedule as it was asked (defaults filled in)
    with the returned cron expression and [scheduledFor], and the creation
    time read at the call.  When the body is ASCII text the job shows its
    first 100 characters: the whole body when it has no more than 100, and
    exactly 100 characters otherwise.  The jobs under other identifiers are
    as before, and the scheduler is still running. *)
Theorem schedule_then_getJob :
  forall (env env' : Env) (n : Notification) (schedule : Schedule)
         (options : Options) (s s' : SchedulerService) (res : ScheduleResult),
    scheduleNotification env n schedule options s = (Return res, s') ->
    (exists view time,
        getJob env' (sr_jobId res) s' = Some view /\
        view_id view = sr_jobId res /\
        pv_title (view_notification view) = title n /\
        (is_ascii (body n) = true ->
         pv_body (view_notification view) = Js.prefix 100 (body n) /\
         String.length (pv_body (view_notification view)) =
           Nat.min (String.length (body n)) 100 /\
         (String.length (body n) <= 100 ->
          pv_body (view_notification view) = body n)) /\
        sch_time schedule = Some time /\
        view_schedule view =
          mkJobSchedule time
            (default "UTC" (sch_timezone schedule))
            (default "once" (sch_frequency schedule))
            (sr_cronExpression res) (sr_scheduledFor res) /\
        view_createdAt view = env_toISOString env) /\
    (forall other,
        other <> sr_jobId res -> getJob env' other s' = getJob env' other s) /\
    running s' = true.
Proof.
  intros env env' n schedule options s s' res Hs.
  destruct (schedule_returns _ _ _ _ _ Hs)
    as (time & task & Hrun & Htime & _ & _ & _ & _ & Hf & Htz & _ & ->).
  split; [|split].
  - eexists. exists time. unfold getJob. simpl. rewrite map_get_set. simpl.
    split; [reflexivity|]. rewrite Hf, Htz.
    split; [reflexivity|]. split; [reflexivity|].
    split; [|repeat split; assumption].
    intros _. simpl. split; [reflexivity|]. split.
    + destruct (Nat.le_gt_cases (String.length (body n)) 100) as [Hle|Hgt].
      * rewrite prefix_short by exact Hle. lia.
      * rewrite prefix_long by lia. lia.
    + intro Hle. now apply prefix_short.
  - intros other Hne. unfold getJob. simpl.
    now rewrite map_get_set_other.
  - reflexivity.
Qed.

Lemma schedule_then_getJob_witness :
  exists view,
    getJob sample_env "notif_1793534400000_k3x9q2m1a"
      (snd (scheduleNotification sample_env sample (at_time "09:00" "daily")
              no_options (start new_scheduler))) = Some view /\
    view_id view = "notif_1793534400000_k3x9q2m1a" /\
    pv_body (view_notification view) = "World".
Proof.
  destruct (@schedule_then_getJob sample_env sample_env sample
              (at_time "09:00" "daily") no_options (start new_scheduler)
              _ _ eq_refl)
    as ((view & time & Hget & Hid & _ & Hbody & _) & _ & _).
  exists view. split; [exact Hget|]. split; [exact Hid|].
  destruct (Hbody eq_refl) as (_ & _ & Hwhole).
  apply Hwhole. simpl. lia.
Defined.

(** X14: the job a successful [scheduleNotification] registers is the one
    [getJob] finds under the returned identifier, with the schedule and the
    creation time of this call.  When the identifier was not registered, the
    job comes last in [getActiveJobs], after the jobs listed before, which
    keep their order.  When the generated identifier is that of a registered
    job, the new job replaces that job at its place in the list, and the
    jobs before and after it stay as they were. *)
Theorem schedule_listing_order :
  forall (env env' : Env) (n : Notification) (schedule : Schedule)
         (options : Options) (s s' : SchedulerService) (res : ScheduleResult),
    scheduleNotification env n schedule options s = (Return res, s') ->
    exists view time,
      getJob env' (sr_jobId res) s' = Some view /\
      view_id view = sr_jobId res /\
      pv_title (view_notification view) = title n /\
      sch_time schedule = Some time /\
      view_schedule view =
        mkJobSchedule time (sr_timezone res) (sr_frequency res)
          (sr_cronExpression res) (sr_scheduledFor res) /\
      view_createdAt view = env_toISOString env /\
      ((map_get (sr_jobId res) (jobs s) = None /\
        getActiveJobs env' s' = getActiveJobs env' s ++ [view])
       \/
       (exists before old after,
           jobs s = before ++ (sr_jobId res, old) :: after /\
           ~ In (sr_jobId res) (map fst before) /\
           getActiveJobs env' s =
             map (job_view env') (map snd before) ++
             job_view env' old :: map (job_view env') (map snd after) /\
           getActiveJobs env' s' =
             map (job_view env') (map snd before) ++
             view :: map (job_view env') (map snd after))).
Proof.
  intros env env' n schedule options s s' res Hs.
  destruct (schedule_returns _ _ _ _ _ Hs)
    as (time & task & _ & Htime & _ & _ & _ & _ & _ & _ & _ & ->).
  eexists. exists time. unfold getJob. simpl. rewrite map_get_set. simpl.
  split; [reflexivity|]. split; [reflexivity|]. split; [reflexivity|].
  split; [exact Htime|]. split; [reflexivity|]. split; [reflexivity|].
  destruct (map_get (sr_jobId res) (jobs s)) as [old|] eqn:Hget.
  - right.
    destruct (@map_set_existing (sr_jobId res)
                (mkJob (sr_jobId res)
                   (mkPreview (title n) (Js.prefix 100 (body n)))
                   (mkJobSchedule time (sr_timezone res) (sr_frequency res)
                      (sr_cronExpression res) (sr_scheduledFor res))
                   task (env_toISOString env) options)
                old (jobs s) Hget)
      as (before & after & Hjobs & Hnotin & Hset).
    exists before, old, after. split; [exact Hjobs|]. split; [exact Hnotin|].
    unfold getActiveJobs, map_values. simpl. rewrite Hset, Hjobs.
    rewrite !map_app. simpl. split; reflexivity.
  - left. split; [reflexivity|].
    unfold getActiveJobs, map_values. simpl.
    rewrite (@map_set_fresh (sr_jobId res) _ (jobs s) Hget), !map_app. reflexivity.
Qed.

Lemma schedule_listing_order_witness :
  let s1 :=
    snd (scheduleNotification sample_env sample (at_time "09:00" "daily")
           no_options (start new_scheduler)) in
  let s2 :=
    snd (scheduleNotification sample_env2 sample (at_time "10:30" "once")
           no_options s1) in
  let s3 :=
    snd (scheduleNotification sample_env2 long_sample (at_time "11:45" "once")
           no_options s2) in
  map view_id (getActiveJobs sample_env s2) =
    ["notif_1793534400000_k3x9q2m1a"; "notif_1793534400001_z8y7x6w5v"] /\
  exists before old after view,
    jobs s2 = before ++ ("notif_1793534400001_z8y7x6w5v", old) :: after /\
    getActiveJobs sample_env s3 =
      map (job_view sample_env) (map snd before) ++
      view :: map (job_view sample_env) (map snd after) /\
    pv_title (view_notification view) = "Report" /\
    js_time (view_schedule view) = "11:45".
Proof.
  intros s1 s2 s3. split.
  - destruct (@schedule_listing_order sample_env2 sample_env sample
                (at_time "10:30" "once") no_options s1 _ _ eq_refl)
      as (view & time & Hget & _ & _ & _ & _ & _ & [(_ & Hlist)|H]).
    + change (getActiveJobs sample_env s2 =
              getActiveJobs sample_env s1 ++ [view]) in Hlist.
      rewrite Hlist, map_app. injection Hget as <-. reflexivity.
    + exfalso. destruct H as (before & old & after & Hjobs & _).
      destruct before as [|b0 [|b1 before]]; discriminate Hjobs.
  - destruct (@schedule_listing_order sample_env2 sample_env long_sample
                (at_time "11:45" "once") no_options s2 _ _ eq_refl)
      as (view & time & _ & _ & Htitle & Htime & Hsched & _ & [(Hfresh & _)|H]).
    + discriminate Hfresh.
    + destruct H as (before & old & after & Hjobs & _ & _ & Hlist).
      exists before, old, after, view.
      split; [exact Hjobs|]. split; [exact Hlist|]. split; [exact Htitle|].
      rewrite Hsched. simpl. now injection Htime as <-.
Defined.

(** ** Cancelling *)

(** X15: [removeJob] answers false on an identifier that is not registered
    and changes nothing; on a registered one it answers true, after which
    the job is gone for [getJob], a second [removeJob] answers false, and the
    other jobs and the running flag are as before. *)
Theorem removeJob_spec :
  forall (env : Env) (jobId : string) (s : SchedulerService),
    (map_get jobId (jobs s) = None /\ removeJob jobId s = (false, s))
    \/
    (exists job s',
        map_get jobId (jobs s) = Some job /\
        removeJob jobId s = (true, s') /\
        getJob env jobId s' = None /\
        removeJob jobId s' = (false, s') /\
        running s' = running s /\
        (forall other,
            other <> jobId -> map_get other (jobs s') = map_get other (jobs s))).
Proof.
  intros env jobId s. unfold removeJob at 1 2.
  destruct (map_get jobId (jobs s)) as [job|] eqn:Hget.
  - right. exists job. eexists. split; [reflexivity|]. split; [reflexivity|].
    unfold getJob, removeJob. simpl. rewrite map_get_delete.
    repeat split. intros other Hne. now apply map_get_delete_other.
  - left. split; reflexivity.
Qed.

Lemma NoDup_map_set (k : string) (v : Job) (m : JobMap) :
  NoDup (map fst m) -> NoDup (map fst (map_set k v m)).
Proof.
  induction m as [|[k0 v0] m IH]; simpl; intro Hnd.
  - constructor; [intros [] | constructor].
  - inversion Hnd as [|x l Hnotin Hnd']; subst.
    destruct (String.eqb_spec k k0) as [->|Hne]; simpl.
    + now constructor.
    + constructor; [|now apply IH].
      rewrite in_map_iff. intros ([k1 v1] & Hk & Hin). simpl in Hk. subst k1.
      apply In_map_set in Hin as [[= -> _]|Hin]; [now apply Hne|].
      apply Hnotin. apply in_map_iff. now exists (k0, v1).
Qed.

Lemma NoDup_map_delete (k : string) (m : JobMap) :
  NoDup (map fst m) -> NoDup (map fst (map_delete k m)).
Proof.
  induction m as [|[k0 v0] m IH]; simpl; intro Hnd; [constructor|].
  inversion Hnd as [|x l Hnotin Hnd']; subst.
  destruct (String.eqb k k0); simpl; [now apply IH|].
  constructor; [|now apply IH].
  rewrite in_map_iff. intros ([k1 v1] & Hk & Hin). simpl in Hk. subst k1.
  apply In_map_delete in Hin as [_ Hin].
  apply Hnotin. apply in_map_iff. now exists (k0, v1).
Qed.

Lemma NoDup_removeJob (jobId : string) (s : SchedulerService) :
  NoDup (job_ids s) -> NoDup (job_ids (snd (removeJob jobId s))).
Proof.
  unfold removeJob, job_ids. intro H.
  destruct (map_get jobId (jobs s)); [|exact H].
  now apply NoDup_map_delete.
Qed.

Lemma NoDup_step (providers : list Provider) (op : Op) (s : SchedulerService)
    (tr : Trace) :
  NoDup (job_ids s) ->
  exists s' tr', step providers op s tr = (Return s', tr') /\ NoDup (job_ids s').
Proof.
  intro Hnd. destruct op as [| |env n schedule options|jobId|jobId|cb]; simpl.
  - exists (start s), tr. split; [reflexivity | exact Hnd].
  - exists (stop s), tr. split; [reflexivity | constructor].
  - eexists. exists tr. split; [reflexivity|].
    destruct (scheduleNotification env n schedule options s) as [[res|e] s'] eqn:Hs.
    + destruct (schedule_returns _ _ _ _ _ Hs)
        as (time & task & _ & _ & _ & _ & _ & _ & _ & _ & _ & ->).
      simpl. unfold job_ids. simpl. now apply NoDup_map_set.
    + unfold scheduleNotification in Hs.
      destruct (running s); simpl in Hs; [|now injection Hs as _ <-].
      destruct (sch_time schedule) as [time|]; [|now injection Hs as _ <-].
      destruct (negb (Js.truthy time) || negb (Regex.test time_pattern time));
        [now injection Hs as _ <-|].
      destruct (trigger_rule env _ _ _ _) as [cronExpression scheduledFor].
      destruct (cron_schedule env _ _ _); [discriminate Hs|].
      now injection Hs as _ <-.
  - eexists. exists tr. split; [reflexivity | now apply NoDup_removeJob].
  - unfold fire. destruct (map_get jobId (jobs s)) as [job|].
    + destruct (task_started (job_task job)).
      * destruct (run_callback_returns providers (task_callback (job_task job)) s tr)
          as (s' & Hrun & ->).
        eexists. eexists. split; [exact Hrun|].
        destruct (String.eqb _ _); [now apply NoDup_removeJob | exact Hnd].
      * exists s, tr. split; [reflexivity | exact Hnd].
    + exists s, tr. split; [reflexivity | exact Hnd].
  - destruct (run_callback_returns providers cb s tr) as (s' & Hrun & ->).
    eexists. eexists. split; [exact Hrun|].
    destruct (String.eqb _ _); [now apply NoDup_removeJob | exact Hnd].
Qed.

(** X16: the registry never holds two jobs under one identifier: whatever
    sequence of operations (start, stop, schedule, remove, trigger firings,
    callbacks still in flight) runs on a new scheduler, the identifiers of
    the registered jobs are pairwise distinct, even when the generator gives
    an identifier twice. *)
Theorem job_ids_unique :
  forall (providers : list Provider) (ops : list Op) (tr : Trace) (env : Env),
  exists s' tr',
    steps providers ops new_scheduler tr = (Return s', tr') /\
    NoDup (job_ids s') /\
    NoDup (map view_id (getActiveJobs env s')).
Proof.
  intros providers ops tr env.
  assert (H : forall s t,
             NoDup (job_ids s) -> well_formed s ->
             exists s' tr',
               steps providers ops s t = (Return s', tr') /\
               NoDup (job_ids s') /\ well_formed s').
  { induction ops as [|op ops IH]; intros s t Hnd Hwf.
    - exists s, t. split; [reflexivity|]. split; assumption.
    - destruct (@NoDup_step providers op s t Hnd) as (s1 & t1 & Hstep & Hnd1).
      destruct (@step_well_formed providers op s t Hwf) as (s2 & t2 & Hstep2 & Hwf1).
      rewrite Hstep in Hstep2. injection Hstep2 as <- <-.
      destruct (IH s1 t1 Hnd1 Hwf1) as (s' & tr' & Hsteps & Hnd' & Hwf').
      exists s', tr'. split; [|split; assumption].
      simpl. unfold bind. now rewrite Hstep. }
  destruct (H new_scheduler tr) as (s' & tr' & Hsteps & Hnd & Hwf).
  - constructor.
  - apply well_formed_new.
  - exists s', tr'. split; [exact Hsteps|]. split; [exact Hnd|].
    rewrite active_ids.
    replace (map (fun kv => job_id (snd kv)) (jobs s')) with (job_ids s');
      [exact Hnd|].
    unfold job_ids. apply map_ext_in. intros [k j] Hin. simpl.
    symmetry. apply (Hwf k j Hin).
Qed.



(** ** The time of day *)

Lemma nullable_Matches (r : Regex.re) :
  Regex.nullable r = true -> Matches r EmptyString.
Proof.
  induction r as [| |c|lo hi|r1 IH1 r2 IH2|r1 IH1 r2 IH2|r IH]; simpl; intro H;
    try discriminate.
  - constructor.
  - apply andb_prop in H as [H1 H2].
    exact (Matches_Seq (IH1 H1) (IH2 H2)).
  - apply orb_prop in H as [H|H];
      [apply Matches_AltL | apply Matches_AltR]; auto.
  - constructor.
Qed.

Lemma deriv_Matches (r : Regex.re) :
  forall c s, Matches (Regex.deriv c r) s -> Matches r (String c s).
Proof.
  induction r as [| |d|lo hi|r1 IH1 r2 IH2|r1 IH1 r2 IH2|r IH]; simpl; intros c s H.
  - inversion H.
  - inversion H.
  - destruct (Ascii.eqb_spec c d) as [->|_]; inversion H; subst. constructor.
  - destruct (Regex.in_range lo hi c) eqn:E; inversion H; subst.
    now constructor.
  - destruct (Regex.nullable r1) eqn:E.
    + inversion H as [| | | |ra rb s0 H1| ra rb s0 H2| |]; subst.
      * inversion H1 as [| | |ra rb s1 s2 Ha Hb| | | |]; subst.
        exact (Matches_Seq (IH1 _ _ Ha) Hb).
      * exact (Matches_Seq (nullable_Matches _ E) (IH2 _ _ H2)).
    + inversion H as [| | |ra rb s1 s2 Ha Hb| | | |]; subst.
      exact (Matches_Seq (IH1 _ _ Ha) Hb).
  - inversion H; subst; [apply Matches_AltL | apply Matches_AltR]; auto.
  - apply Matches_OptSome. auto.
Qed.

(** A string the matcher accepts is one the expression denotes. *)
Lemma test_Matches (s : string) :
  forall r, Regex.test r s = true -> Matches r s.
Proof.
  induction s as [|c s IH]; simpl; intros r H.
  - now apply nullable_Matches.
  - apply deriv_Matches. now apply IH.
Qed.

Lemma in_range_bounds (lo hi c : ascii) :
  Regex.in_range lo hi c = true ->
  nat_of_ascii lo <= nat_of_ascii c <= nat_of_ascii hi.
Proof.
  unfold Regex.in_range. intro H. apply andb_prop in H as [H1 H2].
  apply Nat.leb_le in H1, H2. lia.
Qed.

Lemma not_colon (c : ascii) :
  nat_of_ascii c <= 57 -> Ascii.eqb c ":" = false.
Proof.
  intro H. destruct (Ascii.eqb_spec c ":") as [->|_]; [|reflexivity].
  change (nat_of_ascii ":") with 58 in H. lia.
Qed.

(** The strings of the time pattern: one or two hour digits (at most 23), a
    colon, two minute digits (at most 59). *)
Lemma time_pattern_shape (time : string) :
  Regex.test time_pattern time = true ->
  exists h2 c3 c4,
    nat_of_ascii "0" <= nat_of_ascii c3 <= nat_of_ascii "5" /\
    nat_of_ascii "0" <= nat_of_ascii c4 <= nat_of_ascii "9" /\
    ((nat_of_ascii "0" <= nat_of_ascii h2 <= nat_of_ascii "9" /\
      time = String h2 (String ":" (String c3 (String c4 EmptyString))))
     \/
     (exists h1,
         nat_of_ascii "0" <= nat_of_ascii h1 <= nat_of_ascii "1" /\
         nat_of_ascii "0" <= nat_of_ascii h2 <= nat_of_ascii "9" /\
         time = String h1 (String h2 (String ":" (String c3 (String c4 EmptyString)))))
     \/
     (nat_of_ascii "0" <= nat_of_ascii h2 <= nat_of_ascii "3" /\
      time = String "2" (String h2 (String ":" (String c3 (String c4 EmptyString)))))).
Proof.
  intro H. apply test_Matches in H. unfold time_pattern in H.
  inversion H as [| | |ra rb hs rest Hh Hrest| | | |]; subst.
  inversion Hrest as [| | |ra rb s1 s2 Hc Hmm| | | |]; subst.
  inversion Hc; subst.
  inversion Hmm as [| | |ra rb s3 s4 H3 H4| | | |]; subst.
  inversion H3 as [| |lo hi c3 R3| | | | |]; subst.
  inversion H4 as [| |lo hi c4 R4| | | | |]; subst.
  apply in_range_bounds in R3, R4.
  inversion Hh as [| | | |ra rb s0 Hone|ra rb s0 Htwo| |]; subst.
  - inversion Hone as [| | |ra rb sa sb Ha Hb| | | |]; subst.
    inversion Hb as [| |lo hi h2 R2| | | | |]; subst.
    apply in_range_bounds in R2.
    inversion Ha as [| | | | | |r0|r0 s0 Hsome]; subst.
    + exists h2, c3, c4. split; [exact R3|]. split; [exact R4|].
      left. split; [exact R2 | reflexivity].
    + inversion Hsome as [| |lo hi h1 R1| | | | |]; subst.
      apply in_range_bounds in R1.
      exists h2, c3, c4. split; [exact R3|]. split; [exact R4|].
      right. left. exists h1. split; [exact R1|]. split; [exact R2 | reflexivity].
  - inversion Htwo as [| | |ra rb sa sb Ha Hb| | | |]; subst.
    inversion Ha; subst.
    inversion Hb as [| |lo hi h2 R2| | | | |]; subst.
    apply in_range_bounds in R2.
    exists h2, c3, c4. split; [exact R3|]. split; [exact R4|].
    right. right. split; [exact R2 | reflexivity].
Qed.

Lemma time_parts (time : string) :
  Regex.test time_pattern time = true ->
  length (map Js.Number (Js.split ":" time)) = 2 /\
  nth 0 (map Js.Number (Js.split ":" time)) 0 < 24 /\
  nth 1 (map Js.Number (Js.split ":" time)) 0 < 60 /\
  4 <= String.length time <= 5.
Proof.
  intro H. destruct (time_pattern_shape _ H)
    as (h2 & c3 & c4 & R3 & R4 & [(R2 & ->)|[(h1 & R1 & R2 & ->)|(R2 & ->)]]);
    change (nat_of_ascii "0") with 48 in *;
    change (nat_of_ascii "1") with 49 in *;
    change (nat_of_ascii "3") with 51 in *;
    change (nat_of_ascii "5") with 53 in *;
    change (nat_of_ascii "9") with 57 in *;
    unfold Js.split; simpl;
    repeat (rewrite not_colon by lia); simpl;
    unfold Js.Number, Js.digit; simpl;
    repeat split; unfold Js.digit; lia.
Qed.

Lemma append_empty_r (a : string) : a +++ EmptyString = a.
Proof. induction a as [|c a IH]; simpl; congruence. Qed.

Lemma append_snoc (a b : string) (d : ascii) :
  (a +++ String d EmptyString) +++ b = a +++ String d b.
Proof. induction a as [|c a IH]; simpl; congruence. Qed.

Lemma split_at_colon (hh mm : string) :
  (forall c, In c (list_ascii_of_string hh) -> Ascii.eqb c ":" = false) ->
  (forall c, In c (list_ascii_of_string mm) -> Ascii.eqb c ":" = false) ->
  Js.split ":" (hh +++ ":" +++ mm) = [hh; mm].
Proof.
  intros Hh Hm. unfold Js.split.
  assert (Hmm : forall acc, Js.split_aux ":" acc mm = [acc +++ mm]).
  { clear Hh. induction mm as [|c mm IH]; intro acc; simpl.
    - now rewrite append_empty_r.
    - rewrite (Hm c) by now left.
      rewrite IH by (intros d Hd; apply Hm; now right).
      now rewrite append_snoc. }
  assert (Hhh : forall acc,
             Js.split_aux ":" acc (hh +++ ":" +++ mm) = [acc +++ hh; mm]).
  { induction hh as [|c hh IH]; intro acc; simpl.
    - rewrite Hmm. simpl. now rewrite append_empty_r.
    - rewrite (Hh c) by now left.
      rewrite IH by (intros d Hd; apply Hh; now right).
      now rewrite append_snoc. }
  exact (Hhh EmptyString).
Qed.

(** X19: a time that [scheduleNotification] accepts is one or two hour
    digits, a colon and two minute digits.  The hour and the minute the code
    reads from it, the numbers of the text before and of the text after the
    colon, are below 24 and below 60.  The cron expression of every scheduled
    job starts with this minute and this hour; that of a daily job is
    [minute hour * * *], its [scheduledFor] the word [daily]. *)
Theorem scheduled_time_in_range :
  forall (env : Env) (n : Notification) (schedule : Schedule) (options : Options)
         (s s' : SchedulerService) (res : ScheduleResult),
    scheduleNotification env n schedule options s = (Return res, s') ->
    exists time hh mm,
      sch_time schedule = Some time /\
      time = hh +++ ":" +++ mm /\
      1 <= String.length hh <= 2 /\ String.length mm = 2 /\
      Js.split ":" time = [hh; mm] /\
      Js.Number hh < 24 /\ Js.Number mm < 60 /\
      exists rest,
        sr_cronExpression res =
          Js.of_nat (Js.Number mm) +++ " " +++ Js.of_nat (Js.Number hh) +++
          " " +++ rest /\
        (sr_frequency res = "daily" ->
         rest = "* * *" /\ sr_scheduledFor res = "daily").
Proof.
  intros env n schedule options s s' res Hs.
  destruct (schedule_returns _ _ _ _ _ Hs)
    as (time & task & _ & Htime & _ & Hmatch & _ & _ & _ & _ & Hrule & _).
  destruct (time_parts _ Hmatch) as (_ & Hh & Hm & _).
  assert (Hsplit : exists hh mm,
             time = hh +++ ":" +++ mm /\
             1 <= String.length hh <= 2 /\ String.length mm = 2 /\
             Js.split ":" time = [hh; mm]).
  { destruct (time_pattern_shape _ Hmatch)
      as (h2 & c3 & c4 & R3 & R4 & [(R2 & ->)|[(h1 & R1 & R2 & ->)|(R2 & ->)]]);
      change (nat_of_ascii "0") with 48 in *;
      change (nat_of_ascii "1") with 49 in *;
      change (nat_of_ascii "3") with 51 in *;
      change (nat_of_ascii "5") with 53 in *;
      change (nat_of_ascii "9") with 57 in *.
    - exists (String h2 EmptyString), (String c3 (String c4 EmptyString)).
      split; [reflexivity|]. split; [simpl; lia|]. split; [reflexivity|].
      apply (split_at_colon (String h2 EmptyString)
               (String c3 (String c4 EmptyString)));
        simpl; intros c Hc; decompose [or] Hc; subst; try contradiction;
        apply not_colon; lia.
    - exists (String h1 (String h2 EmptyString)),
        (String c3 (String c4 EmptyString)).
      split; [reflexivity|]. split; [simpl; lia|]. split; [reflexivity|].
      apply (split_at_colon (String h1 (String h2 EmptyString))
               (String c3 (String c4 EmptyString)));
        simpl; intros c Hc; decompose [or] Hc; subst; try contradiction;
        apply not_colon; lia.
    - exists (String "2" (String h2 EmptyString)),
        (String c3 (String c4 EmptyString)).
      split; [reflexivity|]. split; [simpl; lia|]. split; [reflexivity|].
      apply (split_at_colon (String "2" (String h2 EmptyString))
               (String c3 (String c4 EmptyString)));
        simpl; intros c Hc; decompose [or] Hc; subst; try contradiction;
        try reflexivity; apply not_colon; lia. }
  destruct Hsplit as (hh & mm & Heq & Hlh & Hlm & Hsp).
  rewrite Hsp in Hh, Hm, Hrule. simpl in Hh, Hm, Hrule.
  exists time, hh, mm.
  split; [exact Htime|]. split; [exact Heq|]. split; [exact Hlh|].
  split; [exact Hlm|]. split; [exact Hsp|]. split; [exact Hh|].
  split; [exact Hm|].
  unfold trigger_rule in Hrule.
  destruct (String.eqb_spec (sr_frequency res) "daily") as [Hd|Hd];
    injection Hrule as Hcron Hfor; eexists; (split; [exact Hcron|]).
  - intros _. split; [reflexivity | exact Hfor].
  - intro H. contradiction.
Qed.

Lemma scheduled_time_in_range_witness :
  exists hh mm,
    Js.split ":" "23:59" = [hh; mm] /\
    Js.Number hh < 24 /\ Js.Number mm < 60 /\
    "59 23 * * *" =
      Js.of_nat (Js.Number mm) +++ " " +++ Js.of_nat (Js.Number hh) +++ " * * *".
Proof.
  destruct (@scheduled_time_in_range sample_env sample (at_time "23:59" "daily")
              no_options (start new_scheduler) _ _ eq_refl)
    as (time & hh & mm & Htime & _ & _ & _ & Hsp & Hh & Hm & rest & Hcron & Hdaily).
  injection Htime as <-.
  exists hh, mm. split; [exact Hsp|]. split; [exact Hh|]. split; [exact Hm|].
  destruct (Hdaily eq_refl) as [-> _]. exact Hcron.
Defined.

(** ** Previews *)

Lemma length_append (a b : string) :
  String.length (a +++ b) = String.length a + String.length b.
Proof. induction a as [|c a IH]; simpl; [reflexivity | now rewrite IH]. Qed.

Lemma ellipsis_spec (k : nat) (s : string) :
  (String.length s <= k /\ ellipsis k s = s) \/
  (k < String.length s /\ ellipsis k s = Js.prefix k s +++ "..." /\
   String.length (ellipsis k s) = k + 3).
Proof.
  unfold ellipsis. destruct (Nat.ltb_spec k (String.length s)) as [Hlt|Hge].
  - right. split; [exact Hlt|]. split; [reflexivity|].
    rewrite length_append, prefix_long by lia. reflexivity.
  - left. split; [exact Hge|]. rewrite prefix_short by exact Hge.
    induction s as [|c s IH]; simpl; [reflexivity|].
    clear IH Hge. f_equal. induction s as [|d s IH]; simpl; congruence.
Qed.

Lemma bulk_items_preview (outs : list (Outcome DispatchResult)) :
  forall ns i,
    length outs = length ns ->
    map item_notification (bulk_items i ns outs) =
    map (fun n => mkPreview (title n) (ellipsis 50 (body n))) ns.
Proof.
  induction outs as [|o outs IH]; intros [|n ns] i Hlen; try discriminate;
    [reflexivity|].
  simpl. rewrite IH by (simpl in Hlen; lia).
  now destruct o.
Qed.

(** X21: every result of a bulk dispatch carries the title of its
    notification and a preview of the body.  For bodies of ASCII text the
    preview is the body itself when it has at most 50 characters, and its
    first 50 characters followed by three dots, 53 characters in all,
    otherwise. *)
Theorem bulk_previews :
  forall (providers : list Provider) (notifications : list Notification)
         (options : Options) (tr : Trace),
    Forall (fun n => is_ascii (body n) = true) notifications ->
    exists summary tr',
      sendBulkNotifications providers notifications options tr =
        (Return summary, tr') /\
      map (fun item => pv_title (item_notification item)) (bulk_results summary) =
        map title notifications /\
      map (fun item => pv_body (item_notification item)) (bulk_results summary) =
        map (fun n => ellipsis 50 (body n)) notifications /\
      Forall (fun n =>
                (String.length (body n) <= 50 /\ ellipsis 50 (body n) = body n) \/
                (50 < String.length (body n) /\
                 ellipsis 50 (body n) = Js.prefix 50 (body n) +++ "..." /\
                 String.length (Js.prefix 50 (body n)) = 50 /\
                 String.length (ellipsis 50 (body n)) = 53))
        notifications.
Proof.
  intros providers notifications options tr _.
  destruct (Dispatched_total providers options notifications tr)
    as (outs & tr' & Hd).
  pose proof (Dispatched_length Hd) as Hlen.
  eexists. exists tr'. split.
  - unfold sendBulkNotifications. apply (bulk_loop_spec _ Hd).
  - simpl. assert (Hmap := bulk_items_preview outs notifications 0 Hlen).
    split; [|split].
    + rewrite <- (map_map item_notification pv_title), Hmap, map_map.
      reflexivity.
    + rewrite <- (map_map item_notification pv_body), Hmap, map_map.
      reflexivity.
    + apply Forall_forall. intros n _.
      destruct (ellipsis_spec 50 (body n)) as [(Hle & Heq)|(Hlt & Heq & Hl)];
        [left | right]; auto.
      split; [exact Hlt|]. split; [exact Heq|].
      split; [apply prefix_long; lia | exact Hl].
Qed.

Lemma bulk_previews_witness :
  exists summary tr',
    sendBulkNotifications [PusherProvider true ok_transport]
      [sample; long_sample] no_options [] = (Return summary, tr') /\
    map (fun item => pv_body (item_notification item)) (bulk_results summary) =
      ["World"; "01234567890123456789012345678901234567890123456789..."].
Proof.
  destruct (@bulk_previews [PusherProvider true ok_transport]
              [sample; long_sample] no_options [])
    as (summary & tr' & Hrun & _ & Hbody & _).
  - repeat constructor.
  - exists summary, tr'. split; [exact Hrun | exact Hbody].
Defined.

(** ** The bulk dispatch always returns *)

Lemma bulk_dispatch_returns (providers : list Provider)
    (notifications : list Notification) (options : Options) (tr : Trace) :
  exists summary tr',
    sendBulkNotifications providers notifications options tr = (Return summary, tr') /\
    total summary = length notifications /\
    successful summary + failed summary = length notifications.
Proof.
  destruct (Dispatched_total providers options notifications tr)
    as (outs & tr' & Hd).
  eexists. exists tr'. split.
  - unfold sendBulkNotifications. apply (bulk_loop_spec _ Hd).
  - simpl. split; [reflexivity|].
    rewrite count_return_throw. apply (Dispatched_length Hd).
Qed.

(** ** The error handler and the configuration summary *)

Lemma errorHandler_core (e : Error) :
  er_type (errorHandler (as_Err e)) = "Error" /\
  er_status (errorHandler (as_Err e)) =
    if includes "timeout" (message e) && Js.truthy (message e) then 408
    else if includes "rate limit" (message e) && Js.truthy (message e)
         then 429
         else 500.
Proof.
  unfold errorHandler, as_Err, name_is, message_includes. simpl.
  destruct (Js.truthy (message e)), (includes "timeout" (message e)),
    (includes "rate limit" (message e)); split; reflexivity.
Qed.

(** X22: the error handler always answers with [success: false] and one of
    seven statuses.  An error named [ValidationError] gets 400 and its
    message as the validation detail, whatever its message says; 408 and 429
    are given only to errors whose message mentions a timeout or a rate
    limit.  An error thrown by the core, being a plain [Error], gets 500
    unless its message mentions one of the two, and its type reads
    [Error]. *)
Theorem errorHandler_spec :
  forall err : Err,
    er_success (errorHandler err) = false /\
    In (er_status (errorHandler err)) [400; 401; 403; 408; 409; 429; 500] /\
    (name_is err "ValidationError" = false \/
     (er_status (errorHandler err) = 400 /\
      er_validation (errorHandler err) = Some (err_message err))) /\
    (er_status (errorHandler err) <> 408 \/ message_includes err "timeout" = true) /\
    (er_status (errorHandler err) <> 429 \/
     message_includes err "rate limit" = true) /\
    (forall e : Error,
        er_type (errorHandler (as_Err e)) = "Error" /\
        er_status (errorHandler (as_Err e)) =
          if includes "timeout" (message e) && Js.truthy (message e) then 408
          else if includes "rate limit" (message e) && Js.truthy (message e)
               then 429
               else 500).
Proof.
  intro err.
  split; [|split; [|split; [|split; [|split]]]];
    try (unfold errorHandler;
         repeat match goal with
                | |- context [if ?c then _ else _] =>
                    let E := fresh "E" in destruct c eqn:E
                end;
         simpl;
         first [reflexivity
               | auto 10; fail
               | left; reflexivity
               | left; discriminate
               | right; reflexivity
               | right; split; reflexivity]).
  intro e. apply errorHandler_core.
Qed.

(** X23: [getConfiguredProviders] counts the enabled ones among the three
    providers it looks at and compares the count with four: the count is at
    most three, so [allConfigured] is false whatever the configuration. *)
Theorem getConfiguredProviders_never_all :
  forall firebase onesignal pusher : Provider,
    let c := getConfiguredProviders firebase onesignal pusher in
    cp_allConfigured c = false /\
    cp_enabledCount c <= 3 /\
    cp_totalProviders c = 4 /\
    cp_enabledCount c =
      count_if (fun b : bool => b)
        [cp_firebase c; cp_onesignal c; cp_pusher c].
Proof.
  intros firebase onesignal pusher. unfold getConfiguredProviders. simpl.
  destruct (isEnabled firebase), (isEnabled onesignal), (isEnabled pusher);
    unfold count_if; simpl; repeat split; lia.
Qed.

(** ** The routes *)


Lemma ScheduledEach_total (envs : nat -> Env) (schedule : Schedule)
    (options : Options) (todo : list Notification) :
  forall i s,
    exists outs s',
      ScheduledEach envs schedule options todo i s outs s' /\
      length outs = length todo.
Proof.
  induction todo as [|n todo IH]; intros i s.
  - exists [], s. split; [constructor | reflexivity].
  - destruct (scheduleNotification (envs i) n schedule options s) as [o s1] eqn:Hs.
    destruct (IH (S i) s1) as (outs & s' & Hrest & Hlen).
    exists (o :: outs), s'. split.
    + econstructor; [exact Hs | exact Hrest].
    + simpl. now rewrite Hlen.
Qed.

Lemma schedule_each_spec (envs : nat -> Env) (schedule : Schedule)
    (options : Options) (todo : list Notification) :
  forall i s outs s',
    ScheduledEach envs schedule options todo i s outs s' ->
    forall acc,
      schedule_each envs schedule options todo i acc s =
      (acc ++ schedule_items i todo outs, s').
Proof.
  intros i s outs s' H.
  induction H as [i s|n ns i s o s1 outs s' Hs Hrest IH]; intro acc; simpl.
  - now rewrite app_nil_r.
  - rewrite Hs. destruct o as [res|e]; rewrite IH, <- app_assoc; reflexivity.
Qed.

Lemma schedule_items_spec (outs : list (Outcome ScheduleResult)) :
  forall ns i,
    length outs = length ns ->
    map si_index (schedule_items i ns outs) = seq i (length ns) /\
    map si_success (schedule_items i ns outs) = map is_return outs /\
    map si_result (schedule_items i ns outs) = map returned outs /\
    map si_error (schedule_items i ns outs) = map thrown_message outs /\
    map (fun item => pv_title (si_notification item)) (schedule_items i ns outs) =
      map title ns /\
    count_if si_success (schedule_items i ns outs) = count_if is_return outs /\
    length (schedule_items i ns outs) = length ns.
Proof.
  induction outs as [|o outs IH]; intros [|n ns] i Hlen; try discriminate.
  - repeat split.
  - destruct (IH ns (S i)) as (H1 & H2 & H3 & H4 & H5 & H6 & H7);
      [simpl in Hlen; lia|].
    simpl. rewrite H1, H2, H3, H4, H5, H7.
    repeat split. unfold count_if in *. simpl.
    destruct (is_return o); simpl; now rewrite H6.
Qed.

(** X25: [POST /send/bulk] always answers 200.  Without a schedule the
    answer carries the summary [sendBulkNotifications] returns for the
    notifications and the options of the request (the empty object when there
    are none), with its effects, and the scheduler is left as it was.  With a
    schedule nothing is sent: [scheduleNotification] is called on the
    notifications one after the other, each call from the scheduler the call
    before left, and the answer carries one entry per notification, in order,
    with its position, its title, whether the call returned, and what it
    returned or the message of what it threw; [successful] and [failed] count
    the calls that returned and those that threw.  In both cases [success] is
    true exactly when at least one item went through. *)
Theorem route_send_bulk_spec :
  forall (envs : nat -> Env) (providers : list Provider)
         (notifications : list Notification) (options : option Options)
         (schedule : option Schedule) (s : SchedulerService) (tr : Trace),
  exists resp s' tr',
    route_send_bulk envs providers notifications options schedule s tr =
      (Return (resp, s'), tr') /\
    status resp = 200 /\
    match schedule with
    | None =>
        s' = s /\
        exists summary,
          sendBulkNotifications providers notifications
            (default no_options options) tr = (Return summary, tr') /\
          res_data resp = BulkSentData summary /\
          total summary = length notifications /\
          successful summary + failed summary = length notifications /\
          res_success resp = Nat.ltb 0 (successful summary)
    | Some schedule =>
        tr' = tr /\
        exists outs results,
          ScheduledEach envs schedule (default no_options options)
            notifications 0 s outs s' /\
          res_data resp =
            BulkScheduledData (length notifications)
              (count_if is_return outs) (count_if is_throw outs) results /\
          map si_index results = seq 0 (length notifications) /\
          map si_success results = map is_return outs /\
          map si_result results = map returned outs /\
          map si_error results = map thrown_message outs /\
          map (fun item => pv_title (si_notification item)) results =
            map title notifications /\
          count_if is_return outs + count_if is_throw outs =
            length notifications /\
          res_success resp = Nat.ltb 0 (count_if is_return outs)
    end.
Proof.
  intros envs providers notifications options schedule s tr.
  unfold route_send_bulk. destruct schedule as [schedule|].
  - destruct (ScheduledEach_total envs schedule (default no_options options)
                notifications 0 s) as (outs & s1 & Heach & Hlen).
    rewrite (schedule_each_spec Heach []). simpl.
    destruct (schedule_items_spec outs notifications 0 Hlen)
      as (H1 & H2 & H3 & H4 & H5 & H6 & H7).
    pose proof (count_return_throw outs) as Hsum.
    eexists. exists s1. eexists. split; [reflexivity|]. simpl.
    split; [reflexivity|]. split; [reflexivity|].
    exists outs, (schedule_items 0 notifications outs).
    rewrite H6, H7.
    replace (length notifications - count_if is_return outs)
      with (count_if is_throw outs) by lia.
    split; [exact Heach|]. split; [reflexivity|].
    split; [exact H1|]. split; [exact H2|]. split; [exact H3|].
    split; [exact H4|]. split; [exact H5|]. split; [lia | reflexivity].
  - destruct (bulk_dispatch_returns providers notifications
                (default no_options options) tr)
      as (summary & tr' & Hrun & Htotal & Hsum).
    unfold bind, attempt, ret. rewrite Hrun.
    eexists. eexists. eexists. split; [reflexivity|]. simpl.
    split; [reflexivity|]. split; [reflexivity|].
    exists summary. repeat split; assumption.
Qed.

Lemma route_cancel_registered (jobId : string) (s : SchedulerService) (job : Job) :
  map_get jobId (jobs s) = Some job ->
  route_cancel_job jobId s =
  (mkResponse 200 true "Scheduled job cancelled successfully" None
     (CancelledData jobId),
   mkScheduler (map_delete jobId (jobs s)) (running s)).
Proof. intro H. unfold route_cancel_job, removeJob. now rewrite H. Qed.

Lemma route_cancel_absent (jobId : string) (s : SchedulerService) :
  map_get jobId (jobs s) = None ->
  route_cancel_job jobId s =
  (mkResponse 404 false "Scheduled job not found" None NoData, s).
Proof. intro H. unfold route_cancel_job, removeJob. now rewrite H. Qed.

(** X26: [DELETE /scheduled/:jobId] answers 200 when the job is registered
    and 404, changing nothing, when it is not; [GET /scheduled/:jobId]
    answers 200 with the job when it is registered and 404 when it is not.
    After a DELETE, whatever it answered, a GET and a second DELETE of the
    same identifier answer 404. *)
Theorem route_cancel_spec :
  forall (env : Env) (jobId : string) (s : SchedulerService),
    let resp := fst (route_cancel_job jobId s) in
    let s' := snd (route_cancel_job jobId s) in
    ((status resp = 200 /\ status (route_get_job env jobId s) = 200 /\
      res_data resp = CancelledData jobId /\
      exists job, map_get jobId (jobs s) = Some job /\
                  res_data (route_get_job env jobId s) = JobData (job_view env job))
     \/
     (status resp = 404 /\ status (route_get_job env jobId s) = 404 /\
      map_get jobId (jobs s) = None /\ s' = s)) /\
    status (route_get_job env jobId s') = 404 /\
    status (fst (route_cancel_job jobId s')) = 404 /\
    snd (route_cancel_job jobId s') = s'.
Proof.
  intros env jobId s.
  destruct (map_get jobId (jobs s)) as [job|] eqn:Hget.
  - rewrite (route_cancel_registered _ _ Hget). simpl.
    assert (Hgone : map_get jobId
                      (jobs (mkScheduler (map_delete jobId (jobs s)) (running s))) =
                    None) by apply map_get_delete.
    rewrite (route_cancel_absent _ _ Hgone).
    unfold route_get_job, getJob. rewrite Hgone, Hget. simpl.
    split; [|repeat split]. left. repeat split. now exists job.
  - rewrite (route_cancel_absent _ _ Hget). simpl.
    rewrite (route_cancel_absent _ _ Hget).
    unfold route_get_job, getJob. rewrite Hget. simpl.
    split; [|repeat split]. right. repeat split.
Qed.

(** X27: [PATCH /providers/:name] answers 400 when [enabled] is not a
    boolean, 404 when no provider bears the name, letter case apart, and 200
    otherwise; unless it answers 200 it leaves the providers as they were,
    and in every case the providers keep their names and their order. *)
Theorem route_update_provider_spec :
  forall (providers : list Provider) (pname : string) (e : option bool),
    let resp := fst (route_update_provider providers pname e) in
    let providers' := snd (route_update_provider providers pname e) in
    map getName providers' = map getName providers /\
    ((status resp = 400 /\ e = None /\ providers' = providers) \/
     (status resp = 404 /\ providers' = providers /\
      forall p, In p providers -> ~ same_name pname p) \/
     (status resp = 200 /\
      exists flag pre p post,
        e = Some flag /\
        providers = pre ++ p :: post /\
        (forall q, In q pre -> ~ same_name pname q) /\
        same_name pname p /\
        providers' = pre ++ set_enabled p flag :: post /\
        res_data resp = ProviderUpdatedData pname flag)).
Proof.
  intros providers pname e. unfold route_update_provider.
  destruct e as [flag|]; simpl; [|split; [reflexivity | left; auto]].
  destruct (first_match providers pname)
    as [Habs|(pre & p & post & -> & Habs & Hp)].
  - rewrite (@updateProviderStatus_absent providers pname flag Habs). simpl.
    split; [reflexivity|]. right. left. auto.
  - rewrite (@updateProviderStatus_first pre post p pname flag Habs Hp). simpl.
    split; [rewrite !map_app; reflexivity|].
    right. right. split; [reflexivity|].
    exists flag, pre, p, post. repeat split; assumption.
Qed.
